(** * PingRank: a polling client, verified over interaction trees

    The program under study is the script [PingRank.py]:

<<
    urls = [ ".../getRank/olofmeister", ".../getRank/f0rest" ]

    while True:
        for url in urls:
            response = requests.get(url)
            if response.status_code == 200:
                print(response.json())
            else:
                print(f"Failed to retrieve data from {url}. Status code: {response.status_code}")

        time.sleep(240)
>>

    The script never returns and does nothing but talk to its environment
    (the network, the console, the clock), so it is embedded as an
    interaction tree over the four calls it makes.  Its meaning is given by
    an executable, fuel-bounded runner against a world that scripts the
    network's replies, keeps a clock and records every call in a log.

    What the world stands for:
    - [requests.get] returns a response or raises, after a latency that
      the network chooses; a request that never returns is not modelled;
    - [response.json()] is the decoder applied to the body: it returns a
      value or raises, and what it raises is the decoder's business (a
      [JSONDecodeError] on a malformed body, a [ValueError] or a
      [RecursionError] on a body beyond Python's limits);
    - [print] writes its argument or raises, when the console cannot
      encode the text (a [UnicodeEncodeError]);
    - [time.sleep] does not raise, and a signal from outside (Ctrl-C,
      kill, a closed pipe) is not part of a run;
    - time is the clock of the world: [time.sleep(n)] moves it by [n], a
      request by its latency, and nothing else moves it;
    - the console shows the text of what is printed; the log keeps the
      object that was handed to [print].

    The runner comes twice.  [run_in] takes the libraries as they are,
    any decoder and any console ([Libs]).  [run] is [run_in] with the
    libraries at their most lenient, a console that takes every value
    and a decoder that fails in one way only (lemma [run_lenient]); it
    serves where the libraries' other failures play no part: what the
    script does with a status, with a body that is no JSON, between two
    turns of the loop and at its start, and how its requests and sleeps
    are counted and ordered. *)

From Stdlib Require Import ZArith NArith List String Ascii Bool Lia.
From Stdlib Require Import DecimalString.
From Stdlib Require DecimalPos DecimalZ.
From ITree Require Import ITree ITreeFacts.
Import ListNotations.
Import ITreeNotations.
Local Open Scope itree_scope.
Local Open Scope string_scope.
Local Open Scope list_scope.

(* ===================================================================== *)
(** ** Data model *)
(* ===================================================================== *)

(** The values [response.json()] can return: what Python's decoder builds
    from a JSON text.  A dict keeps its items in insertion order; a float
    is kept as the literal it was read from. *)
#[local] Unset Elimination Schemes.
Inductive pyvalue : Type :=
| PyNone
| PyBool (b : bool)
| PyInt (z : Z)
| PyFloat (literal : string)
| PyStr (s : string)
| PyList (l : list pyvalue)
| PyDict (d : list (string * pyvalue)).
#[local] Set Elimination Schemes.

(** A [requests.Response], as far as the script looks at it. *)
Record Response : Type := mkResponse {
  status_code : Z;
  text : string
}.

(** The exceptions the library calls can raise. *)
Inductive pyexn : Type :=
| TransportError (name : string)   (* requests.get: ConnectionError, Timeout, ... *)
| JSONDecodeError                  (* response.json() on a malformed body *)
| OtherError (name : string).      (* any other: ValueError, RecursionError,
                                      UnicodeEncodeError, ... *)

(** The calls of the script to its environment, each with its result type. *)
Variant pingE : Type -> Type :=
| requests_get (url : string) : pingE Response
| response_json (response : Response) : pingE pyvalue
| print (o : pyvalue) : pingE unit
| time_sleep (secs : N) : pingE unit.

(* ===================================================================== *)
(** ** A reference JSON decoder *)
(* ===================================================================== *)

(** The decoder behind [response.json()] belongs to the libraries, not to
    the script, and the development is parametric in it.  To run the
    script on concrete bodies, [JSON.loads] reads the grammar of RFC 8259
    (and, as Python does, the constants NaN, Infinity and -Infinity) and
    builds the value Python builds: integers as [int], numbers with a
    fraction or an exponent as [float], objects as [dict] (a repeated key
    keeps its place and takes the last value).  Texts are sequences of
    bytes; a [\u] escape is stored in UTF-8, a surrogate with no other
    half as the three bytes of its code point.

    Where it departs from Python's decoder: it has no limit on the
    digits of an integer (Python raises a [ValueError] beyond 4300) nor
    on nesting (Python raises a [RecursionError] at the depth of its
    stack), and it keeps a float as the text it read, so that two
    spellings of one number are two values.  It is used on the bodies
    written down in this file, where none of this shows; no general
    statement rests on it. *)
Module JSON.

Local Open Scope string_scope.

Definition dquote : ascii := "034"%char.
Definition backslash : ascii := "092"%char.

Definition is_ws (c : ascii) : bool :=
  ((c =? " ") || (c =? "009") || (c =? "010") || (c =? "013"))%char.

Fixpoint skip_ws (s : string) : string :=
  match s with
  | String c s' => if is_ws c then skip_ws s' else s
  | EmptyString => s
  end.

Definition is_digit (c : ascii) : bool :=
  ((48 <=? nat_of_ascii c) && (nat_of_ascii c <=? 57))%nat.

Definition digit_value (c : ascii) : Z := Z.of_nat (nat_of_ascii c) - 48.

(** The longest run of digits at the head of [s], and what follows. *)
Fixpoint take_digits (s : string) : string * string :=
  match s with
  | String c s' =>
      if is_digit c then
        let (ds, rest) := take_digits s' in (String c ds, rest)
      else (EmptyString, s)
  | EmptyString => (EmptyString, EmptyString)
  end.

Fixpoint digits_value (acc : Z) (ds : string) : Z :=
  match ds with
  | String c ds' => digits_value (10 * acc + digit_value c) ds'
  | EmptyString => acc
  end.

(** A number: an optional minus sign, then 0 or digits that do not start
    with 0, then an optional fraction (a dot and digits), then an
    optional exponent (e or E, an optional sign, digits). *)
Definition parse_number (s : string) : option (pyvalue * string) :=
  let (sign, s1) :=
    match s with
    | String "-"%char s' => ("-", s')
    | _ => ("", s)
    end in
  let int_part :=
    match s1 with
    | String "0"%char s2 => Some ("0", s2)
    | String c _ =>
        if is_digit c then Some (take_digits s1) else None
    | EmptyString => None
    end in
  match int_part with
  | None => None
  | Some (ds, s2) =>
      let (frac, s3) :=
        match s2 with
        | String "."%char s' =>
            match take_digits s' with
            | (EmptyString, _) => ("", s2)
            | (fs, rest) => ("." ++ fs, rest)
            end
        | _ => ("", s2)
        end in
      let (expo, s4) :=
        match s3 with
        | String e s' =>
            if ((e =? "e") || (e =? "E"))%char then
              let (esign, s'') :=
                match s' with
                | String "-"%char r => ("-", r)
                | String "+"%char r => ("+", r)
                | _ => ("", s')
                end in
              match take_digits s'' with
              | (EmptyString, _) => ("", s3)
              | (es, rest) => (String e (esign ++ es), rest)
              end
            else ("", s3)
        | EmptyString => ("", s3)
        end in
      match frac, expo with
      | EmptyString, EmptyString =>
          let n := digits_value 0 ds in
          Some (PyInt (if (sign =? "-")%string then - n else n), s4)
      | _, _ => Some (PyFloat (sign ++ ds ++ frac ++ expo), s4)
      end
  end.

Definition hex_value (c : ascii) : option N :=
  let n := N.of_nat (nat_of_ascii c) in
  if ((48 <=? n) && (n <=? 57))%N then Some (n - 48)%N
  else if ((65 <=? n) && (n <=? 70))%N then Some (n - 55)%N
  else if ((97 <=? n) && (n <=? 102))%N then Some (n - 87)%N
  else None.

Definition hex4 (a b c d : ascii) : option N :=
  match hex_value a, hex_value b, hex_value c, hex_value d with
  | Some x, Some y, Some z, Some t => Some (((x * 16 + y) * 16 + z) * 16 + t)%N
  | _, _, _, _ => None
  end.

Definition byte (n : N) : ascii := ascii_of_N n.

(** A code point in UTF-8 (a lone surrogate is stored like any other
    three-byte code point). *)
Definition utf8 (n : N) (tail : string) : string :=
  (if n <? 128 then String (byte n) tail
   else if n <? 2048 then
     String (byte (192 + n / 64)) (String (byte (128 + n mod 64)) tail)
   else if n <? 65536 then
     String (byte (224 + n / 4096))
       (String (byte (128 + (n / 64) mod 64))
          (String (byte (128 + n mod 64)) tail))
   else
     String (byte (240 + n / 262144))
       (String (byte (128 + (n / 4096) mod 64))
          (String (byte (128 + (n / 64) mod 64))
             (String (byte (128 + n mod 64)) tail))))%N.

Definition simple_escape (c : ascii) : option ascii :=
  if (c =? dquote)%char then Some dquote
  else if (c =? backslash)%char then Some backslash
  else if (c =? "/")%char then Some "/"%char
  else if (c =? "b")%char then Some "008"%char
  else if (c =? "f")%char then Some "012"%char
  else if (c =? "n")%char then Some "010"%char
  else if (c =? "r")%char then Some "013"%char
  else if (c =? "t")%char then Some "009"%char
  else None.

Definition is_high_surrogate (n : N) : bool := ((55296 <=? n) && (n <=? 56319))%N.
Definition is_low_surrogate (n : N) : bool := ((56320 <=? n) && (n <=? 57343))%N.

(** The low half of a surrogate pair at the head of [s], if any. *)
Definition low_surrogate_at (s : string) : option N :=
  match s with
  | String b (String u (String h1 (String h2 (String h3 (String h4 _))))) =>
      if ((b =? backslash) && (u =? "u"))%char then
        match hex4 h1 h2 h3 h4 with
        | Some lo => if is_low_surrogate lo then Some lo else None
        | None => None
        end
      else None
  | _ => None
  end.

(** The characters of a string after its opening quote, up to and
    including the closing one. *)
Fixpoint parse_chars (s : string) : option (string * string) :=
  match s with
  | EmptyString => None
  | String c s' =>
      if (c =? dquote)%char then Some (EmptyString, s')
      else if (c =? backslash)%char then
        match s' with
        | EmptyString => None
        | String e s'' =>
            if (e =? "u")%char then
              match s'' with
              | String h1 (String h2 (String h3 (String h4 rest))) =>
                  match hex4 h1 h2 h3 h4 with
                  | None => None
                  | Some hi =>
                      match (if is_high_surrogate hi then low_surrogate_at rest else None),
                            rest with
                      | Some lo, String _ (String _ (String _ (String _ (String _ (String _ rest'))))) =>
                          match parse_chars rest' with
                          | Some (str, r) =>
                              Some (utf8 (65536 + (hi - 55296) * 1024 + (lo - 56320)) str, r)
                          | None => None
                          end
                      | _, _ =>
                          match parse_chars rest with
                          | Some (str, r) => Some (utf8 hi str, r)
                          | None => None
                          end
                      end
                  end
              | _ => None
              end
            else
              match simple_escape e with
              | None => None
              | Some x =>
                  match parse_chars s'' with
                  | Some (str, r) => Some (String x str, r)
                  | None => None
                  end
              end
        end
      else if (nat_of_ascii c <? 32)%nat then None
      else
        match parse_chars s' with
        | Some (str, r) => Some (String c str, r)
        | None => None
        end
  end.

Fixpoint strip_prefix (p s : string) : option string :=
  match p, s with
  | EmptyString, _ => Some s
  | String a p', String b s' => if (a =? b)%char then strip_prefix p' s' else None
  | String _ _, EmptyString => None
  end.

(** [d[key] = v] on a dict that keeps insertion order. *)
Fixpoint dict_set (d : list (string * pyvalue)) (key : string) (v : pyvalue)
  : list (string * pyvalue) :=
  match d with
  | [] => [(key, v)]
  | (k, x) :: d' =>
      if (k =? key)%string then (k, v) :: d' else (k, x) :: dict_set d' key v
  end.

Fixpoint parse_value (fuel : nat) (s : string) {struct fuel}
  : option (pyvalue * string) :=
  match fuel with
  | O => None
  | S fuel' =>
      match s with
      | EmptyString => None
      | String c s' =>
          if (c =? dquote)%char then
            match parse_chars s' with
            | Some (str, rest) => Some (PyStr str, rest)
            | None => None
            end
          else if (c =? "{")%char then
            match skip_ws s' with
            | String "}"%char rest => Some (PyDict [], rest)
            | s1 => parse_members fuel' s1 []
            end
          else if (c =? "[")%char then
            match skip_ws s' with
            | String "]"%char rest => Some (PyList [], rest)
            | s1 => parse_elements fuel' s1 []
            end
          else
            match strip_prefix "null" s, strip_prefix "true" s, strip_prefix "false" s with
            | Some rest, _, _ => Some (PyNone, rest)
            | _, Some rest, _ => Some (PyBool true, rest)
            | _, _, Some rest => Some (PyBool false, rest)
            | None, None, None =>
                match parse_number s with
                | Some r => Some r
                | None =>
                    match strip_prefix "NaN" s, strip_prefix "Infinity" s,
                          strip_prefix "-Infinity" s with
                    | Some rest, _, _ => Some (PyFloat "NaN", rest)
                    | _, Some rest, _ => Some (PyFloat "Infinity", rest)
                    | _, _, Some rest => Some (PyFloat "-Infinity", rest)
                    | None, None, None => None
                    end
                end
            end
      end
  end

with parse_elements (fuel : nat) (s : string) (acc : list pyvalue) {struct fuel}
  : option (pyvalue * string) :=
  match fuel with
  | O => None
  | S fuel' =>
      match parse_value fuel' s with
      | None => None
      | Some (v, s1) =>
          match skip_ws s1 with
          | String "]"%char rest => Some (PyList (List.rev (v :: acc)), rest)
          | String ","%char rest => parse_elements fuel' (skip_ws rest) (v :: acc)
          | _ => None
          end
      end
  end

with parse_members (fuel : nat) (s : string) (acc : list (string * pyvalue))
                   {struct fuel}
  : option (pyvalue * string) :=
  match fuel with
  | O => None
  | S fuel' =>
      match s with
      | String q s1 =>
          if (q =? dquote)%char then
            match parse_chars s1 with
            | None => None
            | Some (key, s2) =>
                match skip_ws s2 with
                | String ":"%char s3 =>
                    match parse_value fuel' (skip_ws s3) with
                    | None => None
                    | Some (v, s4) =>
                        let acc' := dict_set acc key v in
                        match skip_ws s4 with
                        | String "}"%char rest => Some (PyDict acc', rest)
                        | String ","%char rest => parse_members fuel' (skip_ws rest) acc'
                        | _ => None
                        end
                    end
                | _ => None
                end
            end
          else None
      | EmptyString => None
      end
  end.

(** One value, with blanks around it and nothing else.  A nesting level
    or a list item costs at most two units of fuel and takes at least
    one character, so twice the length is fuel enough. *)
Definition loads (s : string) : option pyvalue :=
  match parse_value (2 * String.length s + 2) (skip_ws s) with
  | Some (v, rest) =>
      match skip_ws rest with
      | EmptyString => Some v
      | String _ _ => None
      end
  | None => None
  end.

(** A text with a double quote around [s], for writing bodies down. *)
Definition quoted (s : string) : string :=
  String dquote (s ++ String dquote EmptyString).

End JSON.

(* ===================================================================== *)
(** ** The script *)
(* ===================================================================== *)

Definition urls : list string :=
  [ "https://f0rest-rank-api.glitch.me/getRank/olofmeister";
    "https://f0rest-rank-api.glitch.me/getRank/f0rest" ]%string.

(** [str(n)] of a Python int, as an f-string field formats it. *)
Definition py_str_int (n : Z) : string :=
  NilZero.string_of_int (Z.to_int n).

(** The f-string of the [else] branch. *)
Definition failure_message (url : string) (code : Z) : string :=
  ("Failed to retrieve data from " ++ url ++ ". Status code: " ++ py_str_int code)%string.

(** The body of the [for] loop. *)
Definition ping (url : string) : itree pingE unit :=
  response <- ITree.trigger (requests_get url) ;;
  if (status_code response =? 200)%Z then
    data <- ITree.trigger (response_json response) ;;
    ITree.trigger (print data)
  else
    ITree.trigger (print (PyStr (failure_message url (status_code response)))).

(** [for x in l: body(x)]. *)
Fixpoint for_each {A : Type} (l : list A) (body : A -> itree pingE unit)
  : itree pingE unit :=
  match l with
  | [] => Ret tt
  | x :: l' => body x ;; for_each l' body
  end.

(** The body of the [while] loop, over any list of targets. *)
Definition cycle_over (us : list string) : itree pingE unit :=
  for_each us ping ;;
  ITree.trigger (time_sleep 240).

(** [while True: ...] has no [break]: the loop has no result to give. *)
Definition poller (us : list string) : itree pingE void :=
  ITree.forever (cycle_over us).

Definition cycle : itree pingE unit := cycle_over urls.

Definition main : itree pingE void := poller urls.

(* ===================================================================== *)
(** ** The world the script runs in *)
(* ===================================================================== *)

(** What the network does with one request: after [latency] seconds it
    either hands back a response or the call raises. *)
Inductive Reply : Type :=
| Answer (latency : N) (response : Response)
| Broken (latency : N) (name : string).

Definition latency_of (r : Reply) : N :=
  match r with
  | Answer d _ => d
  | Broken d _ => d
  end.

(** What an observer of the process sees, call by call. *)
Inductive event : Type :=
| EvGet (url : string)
| EvJson (body : string)
| EvPrint (o : pyvalue)
| EvSleep (secs : N).

(** [net k] is the reply to the [k]-th request of the run, [sent] counts
    the requests issued so far, [now] is the clock in seconds and [log]
    the calls made so far, oldest first, each with the time it was made. *)
Record World : Type := mkWorld {
  net : nat -> Reply;
  sent : nat;
  now : N;
  log : list (N * event)
}.

Definition record (ev : event) (w : World) : World :=
  mkWorld (net w) (sent w) (now w) (log w ++ [(now w, ev)]).

Definition elapse (d : N) (w : World) : World :=
  mkWorld (net w) (sent w) (now w + d) (log w).

Definition count_request (w : World) : World :=
  mkWorld (net w) (S (sent w)) (now w) (log w).

(** A fresh process: nothing requested, nothing logged, the clock at 0. *)
Definition boot (n : nat -> Reply) : World := mkWorld n 0 0 [].

(** How a run of some steps ends: the program returned (with the fuel it
    did not use), an exception went unhandled, or it is still running. *)
Inductive Outcome (R : Type) : Type :=
| Done (r : R) (w : World) (spare : nat)
| Raised (e : pyexn) (w : World)
| Running (w : World).

Arguments Done {R} r w spare.
Arguments Raised {R} e w.
Arguments Running {R} w.

Definition world_of {R : Type} (o : Outcome R) : World :=
  match o with
  | Done _ w _ => w
  | Raised _ w => w
  | Running w => w
  end.

Definition unraised {R : Type} (o : Outcome R) : Prop :=
  match o with
  | Raised _ _ => False
  | _ => True
  end.

Definition unreturned {R : Type} (o : Outcome R) : Prop :=
  match o with
  | Done _ _ _ => False
  | _ => True
  end.

(** *** Reading a log *)

Definition events (w : World) : list event := List.map snd (log w).

(** Standard output: the objects handed to [print], in order. *)
Fixpoint printed_of (evs : list event) : list pyvalue :=
  match evs with
  | [] => []
  | EvPrint o :: evs' => o :: printed_of evs'
  | _ :: evs' => printed_of evs'
  end.

(** The requests issued, in order. *)
Fixpoint requested_of (evs : list event) : list string :=
  match evs with
  | [] => []
  | EvGet url :: evs' => url :: requested_of evs'
  | _ :: evs' => requested_of evs'
  end.

(** The pauses taken, in order. *)
Fixpoint slept_of (evs : list event) : list N :=
  match evs with
  | [] => []
  | EvSleep secs :: evs' => secs :: slept_of evs'
  | _ :: evs' => slept_of evs'
  end.

(** The bodies handed to the decoder, in order. *)
Fixpoint decoded_of (evs : list event) : list string :=
  match evs with
  | [] => []
  | EvJson body :: evs' => body :: decoded_of evs'
  | _ :: evs' => decoded_of evs'
  end.

Definition printed (w : World) : list pyvalue := printed_of (events w).
Definition requested (w : World) : list string := requested_of (events w).
Definition slept (w : World) : list N := slept_of (events w).

(** The calls of one finished turn of the [for] loop on [url]. *)
Inductive turn (url : string) : list event -> Prop :=
| turn_decoded (body : string) (data : pyvalue) :
    turn url [EvGet url; EvJson body; EvPrint data]
| turn_failed (code : Z) :
    code <> 200%Z ->
    turn url [EvGet url; EvPrint (PyStr (failure_message url code))].

(** The calls of a turn that has not finished (yet, or ever). *)
Inductive partial_turn (url : string) : list event -> Prop :=
| partial_none : partial_turn url []
| partial_get : partial_turn url [EvGet url]
| partial_json (body : string) : partial_turn url [EvGet url; EvJson body].

(** A pass that stopped short stopped inside (or just before) the turn
    of some [url], with the turns before it finished. *)
Definition stopped_in (us : list string) (evs : list event) : Prop :=
  exists us1 url us2 turns part,
    us = us1 ++ url :: us2 /\
    Forall2 turn us1 turns /\
    partial_turn url part /\
    evs = List.concat turns ++ part.

(** The calls of one finished turn of the [while] loop, given those of
    its turns of [for]. *)
Definition cycle_calls (turns : list (list event)) : list event :=
  List.concat turns ++ [EvSleep 240].

(** Two networks that send the same responses, whatever time they take. *)
Definition same_reply (a b : Reply) : Prop :=
  match a, b with
  | Answer _ r1, Answer _ r2 => r1 = r2
  | Broken _ n1, Broken _ n2 => n1 = n2
  | _, _ => False
  end.

Definition same_responses (n1 n2 : nat -> Reply) : Prop :=
  forall k, same_reply (n1 k) (n2 k).

(** [grows w w' es]: [w'] is [w] with the entries [es] added to the log,
    all of them stamped between the two clocks; the network is the same
    and neither the clock nor the request counter went back. *)
Definition grows (w w' : World) (es : list (N * event)) : Prop :=
  log w' = log w ++ es /\
  net w' = net w /\
  (now w <= now w')%N /\
  sent w <= sent w' /\
  Forall (fun p => now w <= fst p <= now w')%N es.

(** The world once the request for [url] is over, whatever came back. *)
Definition after_get (url : string) (w : World) : World :=
  elapse (latency_of (net w (sent w))) (count_request (record (EvGet url) w)).

Section Semantics.

(** The libraries at their most lenient.  The decoder behind
    [response.json()] returns a value or fails in one way, [None]
    standing for the [JSONDecodeError] it raises, and the console takes
    whatever [print] hands it.  [Libs], further down, lifts both
    restrictions. *)
Variable json_loads : string -> option pyvalue.

(** One call, carried out in a world: its result or the exception it
    raises, and the world afterwards.  (This is [handle_in] with the
    libraries [lenient json_loads], lemma [handle_lenient].) *)
Definition handle {X : Type} (e : pingE X) (w : World) : (X + pyexn) * World :=
  match e in pingE T return (T + pyexn) * World with
  | requests_get url =>
      let w' := count_request (record (EvGet url) w) in
      match net w (sent w) with
      | Answer d response => (inl response, elapse d w')
      | Broken d name => (inr (TransportError name), elapse d w')
      end
  | response_json response =>
      let w' := record (EvJson (text response)) w in
      match json_loads (text response) with
      | Some data => (inl data, w')
      | None => (inr JSONDecodeError, w')
      end
  | print o => (inl tt, record (EvPrint o) w)
  | time_sleep secs => (inl tt, elapse secs (record (EvSleep secs) w))
  end.

(** The runner: every call and every turn of [while] costs one unit of
    fuel.  Nothing in the script catches an exception, so the first one
    raised ends the run. *)
Fixpoint run {R : Type} (fuel : nat) (t : itree pingE R) (w : World)
  : Outcome R :=
  match observe t with
  | RetF r => Done r w fuel
  | TauF t' =>
      match fuel with
      | O => Running w
      | S fuel' => run fuel' t' w
      end
  | VisF e k =>
      match fuel with
      | O => Running w
      | S fuel' =>
          match handle e w with
          | (inl x, w') => run fuel' (k x) w'
          | (inr exn, w') => Raised exn w'
          end
      end
  end.

(** [t] runs from [w] to completion in [w'], in exactly [n] steps. *)
Definition completes_in (n : nat) (t : itree pingE unit) (w w' : World) : Prop :=
  run n t w = Done tt w' 0.

(** [cycles_done us n w w']: [n] turns of the [while] loop over [us]
    take the world from [w] to [w']. *)
Inductive cycles_done (us : list string) : nat -> World -> World -> Prop :=
| cycles_none (w : World) : cycles_done us 0 w w
| cycles_more (n k : nat) (w w1 w2 : World) :
    completes_in k (cycle_over us) w w1 ->
    cycles_done us n w1 w2 ->
    cycles_done us (S n) w w2.

(** A network that never fails and only sends bodies the decoder reads
    when the status is 200: nothing can raise. *)
Definition obliging (n : nat -> Reply) : Prop :=
  forall k, exists d response,
    n k = Answer d response /\
    (status_code response = 200%Z -> json_loads (text response) <> None).

End Semantics.

(* ===================================================================== *)
(** ** What a pass over the list comes to *)
(* ===================================================================== *)

Section PassSpec.

Variable json_loads : string -> option pyvalue.

(** The line a turn on [url] prints when the network's reply is [rp], if
    the turn gets as far as printing: the decoded body for a 200, the
    failure line for any other status. *)
Definition reply_line (url : string) (rp : Reply) : option pyvalue :=
  match rp with
  | Broken _ _ => None
  | Answer _ response =>
      if (status_code response =? 200)%Z then json_loads (text response)
      else Some (PyStr (failure_message url (status_code response)))
  end.

(** The lines of a pass over [us] whose first request is the [k]-th of
    the run, if every turn of it prints. *)
Fixpoint pass_lines (us : list string) (n : nat -> Reply) (k : nat)
  : option (list pyvalue) :=
  match us with
  | [] => Some []
  | url :: us' =>
      match reply_line url (n k) with
      | None => None
      | Some line => option_map (cons line) (pass_lines us' n (S k))
      end
  end.

End PassSpec.

(** The time [count] requests take, from the [k]-th of the run on. *)
Fixpoint pass_time (count : nat) (n : nat -> Reply) (k : nat) : N :=
  match count with
  | O => 0%N
  | S count' => (latency_of (n k) + pass_time count' n (S k))%N
  end.

(** The calls of a run of the loop: those of some finished turns of
    [while], then those of a turn that is not finished. *)
Definition unfinished_cycle (us : list string) (tail : list event) : Prop :=
  stopped_in us tail \/
  exists turns, Forall2 turn us turns /\ tail = List.concat turns.

Definition loop_calls (us : list string) (evs : list event) : Prop :=
  exists cycles tail,
    Forall (Forall2 turn us) cycles /\
    unfinished_cycle us tail /\
    evs = List.concat (List.map cycle_calls cycles) ++ tail.

(* ===================================================================== *)
(** ** The libraries, in general *)
(* ===================================================================== *)

(** What the libraries under the script do is not the script's to
    decide.  [response.json()] returns a value or raises: a
    [JSONDecodeError] on a body that is no JSON, but also a [ValueError]
    on an integer of more digits than Python converts, or a
    [RecursionError] on a body nested too deep.  [print] writes its
    argument or raises: a [UnicodeEncodeError] when the console cannot
    encode the text, as with a string that holds a lone surrogate.
    [Libs] is any such behaviour: [loads] gives the value of a body or
    the exception raised on it, [write] the exception that printing a
    value raises, if any. *)
Record Libs : Type := mkLibs {
  loads : string -> pyvalue + pyexn;
  write : pyvalue -> option pyexn
}.

(** The libraries of [handle]: a console that takes every value, and a
    decoder that fails in one way only. *)
Definition lenient (json_loads : string -> option pyvalue) : Libs :=
  mkLibs (fun body =>
            match json_loads body with
            | Some data => inl data
            | None => inr JSONDecodeError
            end)
         (fun _ => None).

(** A lone surrogate in a text kept in UTF-8: the byte 237 followed by a
    byte of 160 or more.  (The decoder joins the two halves of a pair,
    so a surrogate that is left is alone.) *)
Fixpoint has_surrogate (s : string) : bool :=
  match s with
  | String c s' =>
      match s' with
      | String c' _ =>
          (Nat.eqb (nat_of_ascii c) 237 && Nat.leb 160 (nat_of_ascii c')) || has_surrogate s'
      | EmptyString => false
      end
  | EmptyString => false
  end.

(** [print] on a console in UTF-8.  A string goes out as it is, and one
    that holds a lone surrogate cannot be encoded; any other value goes
    out as its [repr], which writes such a character as an escape. *)
Definition utf8_write (o : pyvalue) : option pyexn :=
  match o with
  | PyStr s => if has_surrogate s then Some (OtherError "UnicodeEncodeError") else None
  | _ => None
  end.

(** The reference decoder and a console in UTF-8.  [JSON.loads] has
    none of Python's limits (4300 digits to an integer, the depth of the
    interpreter's stack), so these libraries stand for Python's on the
    bodies within those limits; the theorems on [Libs] hold of any
    libraries, beyond the limits too. *)
Definition python : Libs := mkLibs (loads (lenient JSON.loads)) utf8_write.

Section InLibs.

Variable L : Libs.

(** One call, carried out in a world, with the libraries [L]. *)
Definition handle_in {X : Type} (e : pingE X) (w : World) : (X + pyexn) * World :=
  match e in pingE T return (T + pyexn) * World with
  | requests_get url =>
      let w' := count_request (record (EvGet url) w) in
      match net w (sent w) with
      | Answer d response => (inl response, elapse d w')
      | Broken d name => (inr (TransportError name), elapse d w')
      end
  | response_json response =>
      let w' := record (EvJson (text response)) w in
      match loads L (text response) with
      | inl data => (inl data, w')
      | inr exn => (inr exn, w')
      end
  | print o =>
      match write L o with
      | None => (inl tt, record (EvPrint o) w)
      | Some exn => (inr exn, w)
      end
  | time_sleep secs => (inl tt, elapse secs (record (EvSleep secs) w))
  end.

(** The runner, with the libraries [L]: every call and every turn of
    [while] costs one unit of fuel, and the first exception ends the
    run. *)
Fixpoint run_in {R : Type} (fuel : nat) (t : itree pingE R) (w : World)
  : Outcome R :=
  match observe t with
  | RetF r => Done r w fuel
  | TauF t' =>
      match fuel with
      | O => Running w
      | S fuel' => run_in fuel' t' w
      end
  | VisF e k =>
      match fuel with
      | O => Running w
      | S fuel' =>
          match handle_in e w with
          | (inl x, w') => run_in fuel' (k x) w'
          | (inr exn, w') => Raised exn w'
          end
      end
  end.

(** [n] turns of the [while] loop over [us] take the world from [w] to
    [w']. *)
Inductive cycles_in (us : list string) : nat -> World -> World -> Prop :=
| cycles_in_none (w : World) : cycles_in us 0 w w
| cycles_in_more (n k : nat) (w w1 w2 : World) :
    run_in k (cycle_over us) w = Done tt w1 0 ->
    cycles_in us n w1 w2 ->
    cycles_in us (S n) w w2.

(** What the turn on [url] comes to when the network's reply is [rp]:
    the line it prints, or the exception that ends it (the one of the
    request, of the decoder, or of [print]). *)
Definition line_of (url : string) (rp : Reply) : pyvalue + pyexn :=
  match rp with
  | Broken _ name => inr (TransportError name)
  | Answer _ response =>
      if (status_code response =? 200)%Z then
        match loads L (text response) with
        | inl data =>
            match write L data with
            | None => inl data
            | Some exn => inr exn
            end
        | inr exn => inr exn
        end
      else
        let line := PyStr (failure_message url (status_code response)) in
        match write L line with
        | None => inl line
        | Some exn => inr exn
        end
  end.

(** What the [i]-th turn of [for] of a run of the loop comes to, when
    the run starts at the head of the loop with [s] requests made
    before it: its URL is the one at [i] modulo the length of the list,
    and its reply the one to request [s + i]. *)
Definition line_at (us : list string) (n : nat -> Reply) (s i : nat)
  : pyvalue + pyexn :=
  line_of (List.nth (i mod List.length us) us EmptyString) (n (s + i)).

(** What a pass over [us] comes to, its first request being the [k]-th:
    the lines it prints, and the exception that ends it, if any. *)
Fixpoint pass_result (us : list string) (n : nat -> Reply) (k : nat)
  : list pyvalue * option pyexn :=
  match us with
  | [] => ([], None)
  | url :: us' =>
      match line_of url (n k) with
      | inl line =>
          let (lines, exn) := pass_result us' n (S k) in (line :: lines, exn)
      | inr exn => ([], Some exn)
      end
  end.

(** No reply makes a turn on a URL of [us] raise. *)
Definition unfailing (us : list string) (n : nat -> Reply) : Prop :=
  forall k url, In url us -> exists line, line_of url (n k) = inl line.

(** *** The script as a transition system *)

(** A state of the process: what is left of the program and the world.
    [T] is the type of result the program would give if it returned. *)
Definition config (T : Type) : Type := itree pingE T * World.

(** A state takes a step when what is left of the program starts with a
    jump back to the head of the loop, or with a call that answers. *)
Inductive step_in {T : Type} : config T -> config T -> Prop :=
| step_in_jump (t t' : itree pingE T) (w : World) :
    observe t = TauF t' ->
    step_in (t, w) (t', w)
| step_in_call (X : Type) (e : pingE X) (k : X -> itree pingE T)
               (t : itree pingE T) (x : X) (w w' : World) :
    observe t = VisF e k ->
    handle_in e w = (inl x, w') ->
    step_in (t, w) (k x, w').

(** The process dies of an exception that a library call raised. *)
Inductive crashes_in {T : Type} : config T -> pyexn -> World -> Prop :=
| crash_in_call (X : Type) (e : pingE X) (k : X -> itree pingE T)
                (t : itree pingE T) (exn : pyexn) (w w' : World) :
    observe t = VisF e k ->
    handle_in e w = (inr exn, w') ->
    crashes_in (t, w) exn w'.

Inductive steps_in {T : Type} : nat -> config T -> config T -> Prop :=
| steps_in_none (c : config T) : steps_in 0 c c
| steps_in_more (n : nat) (c1 c2 c3 : config T) :
    step_in c1 c2 -> steps_in n c2 c3 -> steps_in (S n) c1 c3.

(** The states the [while] loop over [us] goes through from [w]. *)
Definition reachable_in {T : Type} (us : list string) (w : World) (c : config T)
  : Prop :=
  exists n, steps_in n (ITree.forever (cycle_over us), w) c.

End InLibs.

(** The lines a run has added are those of its turns, in order. *)
Definition lines_from (F : nat -> pyvalue + pyexn) (lines : list pyvalue) : Prop :=
  forall i line, nth_error lines i = Some line -> F i = inl line.

(* ===================================================================== *)
(** ** Networks to run the script against *)
(* ===================================================================== *)

(** The body of the spec's example: an object with one member. *)
Definition rank5_body : string :=
  ("{" ++ JSON.quoted "rank" ++ ": 5}")%string.

(** The scenario of the spec: the first URL answers 200 with [{"x":1}],
    the second answers 500, cycle after cycle. *)
Definition x1_body : string := ("{" ++ JSON.quoted "x" ++ ":1}")%string.

Definition scenario_net (k : nat) : Reply :=
  if Nat.even k then Answer 1 (mkResponse 200 x1_body)
  else Answer 1 (mkResponse 500 "Internal Server Error").

(** The scenario on a slower network and a later clock. *)
Definition scenario_net_slow (k : nat) : Reply :=
  if Nat.even k then Answer 30 (mkResponse 200 x1_body)
  else Answer 7 (mkResponse 500 "Internal Server Error").

(** A network that is down. *)
Definition dead_net (k : nat) : Reply := Broken 3 "ConnectionError".

(** A network that only ever answers 404. *)
Definition net_404 (k : nat) : Reply := Answer 1 (mkResponse 404 "Not Found").

(** A network whose first reply is fine and whose second is a 200 that
    is no JSON. *)
Definition net_html (k : nat) : Reply :=
  match k with
  | O => Answer 1 (mkResponse 200 x1_body)
  | S _ => Answer 2 (mkResponse 200 "<html>")
  end.

(** The scenario once both URLs have had their turn, after the sleep
    that follows, and after a second turn of the loop. *)
Definition scenario_log : list (N * event) :=
  [(0%N, EvGet "https://f0rest-rank-api.glitch.me/getRank/olofmeister");
   (1%N, EvJson x1_body);
   (1%N, EvPrint (PyDict [("x"%string, PyInt 1)]));
   (1%N, EvGet "https://f0rest-rank-api.glitch.me/getRank/f0rest");
   (2%N, EvPrint (PyStr "Failed to retrieve data from https://f0rest-rank-api.glitch.me/getRank/f0rest. Status code: 500"))].

Definition scenario_swept : World := mkWorld scenario_net 2 2 scenario_log.

Definition scenario_cycle1 : World :=
  mkWorld scenario_net 2 242 (scenario_log ++ [(2%N, EvSleep 240)]).

Definition scenario_cycle2 : World :=
  mkWorld scenario_net 4 484
    (scenario_log ++
     [(2%N, EvSleep 240);
      (242%N, EvGet "https://f0rest-rank-api.glitch.me/getRank/olofmeister");
      (243%N, EvJson x1_body);
      (243%N, EvPrint (PyDict [("x"%string, PyInt 1)]));
      (243%N, EvGet "https://f0rest-rank-api.glitch.me/getRank/f0rest");
      (244%N, EvPrint (PyStr "Failed to retrieve data from https://f0rest-rank-api.glitch.me/getRank/f0rest. Status code: 500"));
      (244%N, EvSleep 240)]).

Definition html_swept : World :=
  mkWorld net_html 1 1
    [(0%N, EvGet "https://f0rest-rank-api.glitch.me/getRank/olofmeister");
     (1%N, EvJson x1_body);
     (1%N, EvPrint (PyDict [("x"%string, PyInt 1)]))].

Definition html_crashed : World :=
  mkWorld net_html 2 3
    [(0%N, EvGet "https://f0rest-rank-api.glitch.me/getRank/olofmeister");
     (1%N, EvJson x1_body);
     (1%N, EvPrint (PyDict [("x"%string, PyInt 1)]));
     (1%N, EvGet "https://f0rest-rank-api.glitch.me/getRank/f0rest");
     (3%N, EvJson "<html>")].

(** A body that is one JSON string, the escape of a surrogate with no
    other half, and the string it decodes to: the three bytes of U+D800
    in UTF-8. *)
Definition surrogate_body : string := JSON.quoted "\ud800".

Definition lone_surrogate : string :=
  String "237"%char (String "160"%char (String "128"%char EmptyString)).

(** A network that answers every request with a 200 and that body. *)
Definition net_surrogate (k : nat) : Reply :=
  Answer 1 (mkResponse 200 surrogate_body).

(** The first turn on that network, once the decoder has been called. *)
Definition surrogate_crashed : World :=
  mkWorld net_surrogate 1 1
    [(0%N, EvGet "https://f0rest-rank-api.glitch.me/getRank/olofmeister");
     (1%N, EvJson surrogate_body)].

(** The network that is down, once the first request has failed. *)
Definition dead_crashed : World :=
  mkWorld dead_net 1 3
    [(0%N, EvGet "https://f0rest-rank-api.glitch.me/getRank/olofmeister")].

(** The scenario on the slower network, from a clock at 1000, after one
    turn of the loop. *)
Definition scenario_slow_cycle1 : World :=
  mkWorld scenario_net_slow 2 1277
    [(1000%N, EvGet "https://f0rest-rank-api.glitch.me/getRank/olofmeister");
     (1030%N, EvJson x1_body);
     (1030%N, EvPrint (PyDict [("x"%string, PyInt 1)]));
     (1030%N, EvGet "https://f0rest-rank-api.glitch.me/getRank/f0rest");
     (1037%N, EvPrint (PyStr "Failed to retrieve data from https://f0rest-rank-api.glitch.me/getRank/f0rest. Status code: 500"));
     (1037%N, EvSleep 240)].

(* ===================================================================== *)
(** ** How the runner goes through the script's constructs *)
(* ===================================================================== *)

Section RunFacts.

Variable json_loads : string -> option pyvalue.

#[local] Abbreviation run := (run json_loads).

Lemma run_unfold {R : Type} (fuel : nat) (t : itree pingE R) (w : World) :
  run fuel t w =
  match observe t with
  | RetF r => Done r w fuel
  | TauF t' =>
      match fuel with
      | O => Running w
      | S fuel' => run fuel' t' w
      end
  | VisF e k =>
      match fuel with
      | O => Running w
      | S fuel' =>
          match handle json_loads e w with
          | (inl x, w') => run fuel' (k x) w'
          | (inr exn, w') => Raised exn w'
          end
      end
  end.
Proof. destruct fuel; reflexivity. Qed.

(** The runner only looks at a tree through [observe]. *)
Lemma run_observe {R : Type} (fuel : nat) (t u : itree pingE R) (w : World) :
  observe t = observe u -> run fuel t w = run fuel u w.
Proof. intros H. rewrite (run_unfold fuel t), (run_unfold fuel u), H. reflexivity. Qed.

(** So it gives one outcome to trees that are equal as interaction
    trees, and the equations of the library can be used under it. *)
Lemma run_eq_itree {R : Type} (fuel : nat) (t u : itree pingE R) (w : World) :
  t ≅ u -> run fuel t w = run fuel u w.
Proof.
  revert t u w. induction fuel as [| fuel IH]; intros t u w H;
    rewrite (run_unfold _ t), (run_unfold _ u);
    apply eqit_inv in H; unfold observe;
    destruct (_observe t) as [r | t' | X e k], (_observe u) as [r' | u' | Y e' k'];
    cbn in H; try contradiction; try discriminate; subst; try reflexivity.
  - apply IH, H.
  - destruct H as (p & He & Hk). destruct p. cbn in He, Hk. subst e'.
    destruct (handle json_loads e w) as [[x | exn] w']; [| reflexivity].
    apply IH, Hk.
Qed.

Lemma run_ret {R : Type} (fuel : nat) (r : R) (w : World) :
  run fuel (Ret r) w = Done r w fuel.
Proof. rewrite run_unfold. reflexivity. Qed.

Lemma run_tau {R : Type} (fuel : nat) (t : itree pingE R) (w : World) :
  run (S fuel) (Tau t) w = run fuel t w.
Proof. reflexivity. Qed.

(** A call costs one unit of fuel and either answers or raises. *)
Lemma run_trigger {X : Type} (fuel : nat) (e : pingE X) (w : World) :
  run (S fuel) (ITree.trigger e) w =
  match handle json_loads e w with
  | (inl x, w') => Done x w' fuel
  | (inr exn, w') => Raised exn w'
  end.
Proof.
  cbn. destruct (handle json_loads e w) as [[x | exn] w']; [apply run_ret | reflexivity].
Qed.

Lemma run_trigger_0 {X : Type} (e : pingE X) (w : World) :
  run 0 (ITree.trigger e) w = Running w.
Proof. reflexivity. Qed.

(** Sequencing: the continuation runs on the fuel the first part left,
    and an exception or an exhausted run of the first part is the
    outcome of the whole. *)
Lemma run_bind {R T : Type} (fuel : nat) (t : itree pingE R)
      (k : R -> itree pingE T) (w : World) :
  run fuel (ITree.bind t k) w =
  match run fuel t w with
  | Done r w' spare => run spare (k r) w'
  | Raised exn w' => Raised exn w'
  | Running w' => Running w'
  end.
Proof.
  revert t w. induction fuel as [| fuel IH]; intros t w.
  - rewrite (run_unfold 0 (ITree.bind t k)), (run_unfold 0 t), observe_bind.
    destruct (observe t) as [r | t' | X e h]; cbn; reflexivity.
  - rewrite (run_unfold (S fuel) (ITree.bind t k)), (run_unfold (S fuel) t), observe_bind.
    destruct (observe t) as [r | t' | X e h]; cbn.
    + reflexivity.
    + apply IH.
    + destruct (handle json_loads e w) as [[x | exn] w']; [apply IH | reflexivity].
Qed.

(** One turn of [while True]: the body, then the jump back. *)
Lemma run_forever {R T : Type} (fuel : nat) (t : itree pingE R) (w : World) :
  run fuel (ITree.forever t : itree pingE T) w =
  match run fuel t w with
  | Done _ w' (S spare) => run spare (ITree.forever t) w'
  | Done _ w' O => Running w'
  | Raised exn w' => Raised exn w'
  | Running w' => Running w'
  end.
Proof.
  rewrite (run_observe fuel _ _ w (observing_observe (unfold_forever_ t))).
  rewrite run_bind.
  destruct (run fuel t w) as [r w' spare | exn w' | w']; try reflexivity.
  destruct spare; reflexivity.
Qed.

(** *** Fuel *)

Lemma run_done_more {R : Type} (n : nat) (t : itree pingE R) (w w' : World)
      (r : R) (spare : nat) :
  run n t w = Done r w' spare ->
  forall k, run (n + k) t w = Done r w' (spare + k).
Proof.
  revert t w. induction n as [| n IH]; intros t w H k.
  - rewrite run_unfold in H. rewrite run_unfold.
    destruct (observe t) as [r0 | t' | X e h]; try discriminate.
    injection H as -> -> <-. reflexivity.
  - rewrite run_unfold in H. rewrite run_unfold.
    destruct (observe t) as [r0 | t' | X e h].
    + injection H as -> -> <-. reflexivity.
    + cbn. apply IH, H.
    + cbn. destruct (handle json_loads e w) as [[x | exn] w1]; [apply IH, H | discriminate].
Qed.


Lemma run_done_exact {R : Type} (n : nat) (t : itree pingE R) (w w' : World)
      (r : R) (spare : nat) :
  run n t w = Done r w' spare ->
  exists m, n = m + spare /\ run m t w = Done r w' 0.
Proof.
  revert t w. induction n as [| n IH]; intros t w H.
  - rewrite run_unfold in H.
    destruct (observe t) as [r0 | t' | X e h] eqn:E; try discriminate.
    injection H as -> -> <-. exists 0. split; [reflexivity |].
    rewrite run_unfold, E. reflexivity.
  - rewrite run_unfold in H.
    destruct (observe t) as [r0 | t' | X e h] eqn:E.
    + injection H as -> -> <-. exists 0. split; [reflexivity |].
      rewrite run_unfold, E. reflexivity.
    + destruct (IH _ _ H) as (m & -> & Hm). exists (S m). split; [reflexivity |].
      rewrite run_unfold, E. exact Hm.
    + destruct (handle json_loads e w) as [[x | exn] w1] eqn:Eh; [| discriminate].
      destruct (IH _ _ H) as (m & -> & Hm). exists (S m). split; [reflexivity |].
      rewrite run_unfold, E, Eh. exact Hm.
Qed.

(** *** What a run leaves alone, and what it can only add to *)

Lemma grows_refl (w : World) : grows w w [].
Proof.
  repeat split; try reflexivity; try apply Forall_nil.
  symmetry. apply app_nil_r.
Qed.

Lemma grows_trans (w1 w2 w3 : World) (es1 es2 : list (N * event)) :
  grows w1 w2 es1 -> grows w2 w3 es2 -> grows w1 w3 (es1 ++ es2).
Proof.
  intros (L1 & N1 & C1 & S1 & F1) (L2 & N2 & C2 & S2 & F2).
  repeat split.
  - rewrite L2, L1. symmetry. apply app_assoc.
  - congruence.
  - lia.
  - lia.
  - apply Forall_app. split.
    + eapply Forall_impl; [| exact F1]. cbn. intros p Hp. lia.
    + eapply Forall_impl; [| exact F2]. cbn. intros p Hp. lia.
Qed.

(** One entry was added, stamped with the clock before the call. *)
Ltac one_entry := repeat split; cbn; try lia; repeat constructor; cbn; lia.

Lemma handle_grows {X : Type} (e : pingE X) (w : World) :
  exists ev, grows w (snd (handle json_loads e w)) [(now w, ev)].
Proof.
  destruct e as [url | response | o | secs]; cbn.
  - exists (EvGet url). destruct (net w (sent w)) as [d r | d name]; cbn; one_entry.
  - exists (EvJson (text response)).
    destruct (json_loads (text response)); cbn; one_entry.
  - exists (EvPrint o). one_entry.
  - exists (EvSleep secs). one_entry.
Qed.

Lemma run_grows {R : Type} (n : nat) (t : itree pingE R) (w : World) :
  exists es, grows w (world_of (run n t w)) es.
Proof.
  revert t w. induction n as [| n IH]; intros t w; rewrite run_unfold.
  - exists []. destruct (observe t); apply grows_refl.
  - destruct (observe t) as [r | t' | X e h].
    + exists []. apply grows_refl.
    + apply IH.
    + destruct (handle_grows e w) as (ev & G).
      destruct (handle json_loads e w) as [[x | exn] w1]; cbn in G.
      * destruct (IH (h x) w1) as (es & G').
        eexists. eapply grows_trans; eassumption.
      * eexists. exact G.
Qed.

(** More fuel only adds to what less fuel logged. *)
Lemma run_fuel_grows {R : Type} (n k : nat) (t : itree pingE R) (w : World) :
  exists es, grows (world_of (run n t w)) (world_of (run (n + k) t w)) es.
Proof.
  revert t w. induction n as [| n IH]; intros t w.
  - rewrite (run_unfold 0 t).
    destruct (observe t) as [r | t' | X e h] eqn:E.
    + rewrite run_unfold, E. exists []. apply grows_refl.
    + apply run_grows.
    + apply run_grows.
  - rewrite (run_unfold (S n) t), (run_unfold (S n + k) t).
    destruct (observe t) as [r | t' | X e h]; cbn.
    + exists []. apply grows_refl.
    + apply IH.
    + destruct (handle json_loads e w) as [[x | exn] w1]; [apply IH |].
      exists []. apply grows_refl.
Qed.

(** *** One turn of the [for] loop *)

Lemma ping_unfold (n : nat) (url : string) (w : World) :
  run (S n) (ping url) w =
  match net w (sent w) with
  | Broken _ name => Raised (TransportError name) (after_get url w)
  | Answer _ response =>
      if (status_code response =? 200)%Z then
        run n (data <- ITree.trigger (response_json response) ;;
               ITree.trigger (print data)) (after_get url w)
      else
        run n (ITree.trigger
                 (print (PyStr (failure_message url (status_code response)))))
            (after_get url w)
  end.
Proof.
  unfold ping. rewrite run_bind, run_trigger. unfold after_get.
  cbv beta iota zeta delta [handle].
  destruct (net w (sent w)) as [d response | d name]; [| reflexivity].
  destruct (status_code response =? 200)%Z; reflexivity.
Qed.

Lemma ping_decoded (n : nat) (url : string) (w : World) (d : N)
      (response : Response) (data : pyvalue) :
  net w (sent w) = Answer d response ->
  status_code response = 200%Z ->
  json_loads (text response) = Some data ->
  run (3 + n) (ping url) w =
  Done tt (record (EvPrint data)
             (record (EvJson (text response)) (after_get url w))) n.
Proof.
  intros H H200 Hj. cbn [Nat.add]. rewrite ping_unfold, H, H200. cbn [Z.eqb Pos.eqb].
  rewrite run_bind, run_trigger. cbv beta iota zeta delta [handle]. rewrite Hj.
  rewrite run_trigger. reflexivity.
Qed.

Lemma ping_malformed (n : nat) (url : string) (w : World) (d : N)
      (response : Response) :
  net w (sent w) = Answer d response ->
  status_code response = 200%Z ->
  json_loads (text response) = None ->
  run (2 + n) (ping url) w =
  Raised JSONDecodeError (record (EvJson (text response)) (after_get url w)).
Proof.
  intros H H200 Hj. cbn [Nat.add]. rewrite ping_unfold, H, H200. cbn [Z.eqb Pos.eqb].
  rewrite run_bind, run_trigger. cbv beta iota zeta delta [handle]. rewrite Hj.
  reflexivity.
Qed.

Lemma ping_failed (n : nat) (url : string) (w : World) (d : N)
      (response : Response) :
  net w (sent w) = Answer d response ->
  status_code response <> 200%Z ->
  run (2 + n) (ping url) w =
  Done tt (record (EvPrint (PyStr (failure_message url (status_code response))))
             (after_get url w)) n.
Proof.
  intros H H200. cbn [Nat.add]. rewrite ping_unfold, H.
  apply Z.eqb_neq in H200. rewrite H200. rewrite run_trigger. reflexivity.
Qed.

Lemma events_record (ev : event) (w : World) :
  events (record ev w) = events w ++ [ev].
Proof. unfold events, record. cbn. apply map_app. Qed.

Lemma events_after_get (url : string) (w : World) :
  events (after_get url w) = events w ++ [EvGet url].
Proof. unfold events, after_get. cbn. apply map_app. Qed.

Lemma events_elapse (d : N) (w : World) : events (elapse d w) = events w.
Proof. reflexivity. Qed.

(** Whatever the fuel and the network, the calls of a turn on [url] are
    those of a finished turn when it returns, and a beginning of one
    when it does not. *)
Lemma ping_shape (n : nat) (url : string) (w : World) :
  match run n (ping url) w with
  | Done _ w' _ => exists evs, turn url evs /\ events w' = events w ++ evs
  | Raised _ w' => exists evs, partial_turn url evs /\ events w' = events w ++ evs
  | Running w' => exists evs, partial_turn url evs /\ events w' = events w ++ evs
  end.
Proof.
  destruct n as [| n].
  { exists []. split; [constructor | symmetry; apply app_nil_r]. }
  rewrite ping_unfold.
  destruct (net w (sent w)) as [d response | d name].
  2:{ exists [EvGet url]. split; [constructor | apply events_after_get]. }
  destruct (status_code response =? 200)%Z eqn:E200.
  - destruct n as [| n].
    { exists [EvGet url]. split; [constructor | apply events_after_get]. }
    rewrite run_bind, run_trigger. cbv beta iota zeta delta [handle].
    destruct (json_loads (text response)) as [data |].
    + destruct n as [| n].
      * exists [EvGet url; EvJson (text response)]. split; [constructor |].
        cbn [run observe _observe ITree.trigger].
        rewrite events_record, events_after_get, <- app_assoc. reflexivity.
      * rewrite run_trigger. cbv beta iota zeta delta [handle].
        exists [EvGet url; EvJson (text response); EvPrint data].
        split; [constructor |].
        rewrite !events_record, events_after_get, <- !app_assoc. reflexivity.
    + exists [EvGet url; EvJson (text response)]. split; [constructor |].
      rewrite events_record, events_after_get, <- app_assoc. reflexivity.
  - destruct n as [| n].
    { exists [EvGet url]. split; [constructor | apply events_after_get]. }
    rewrite run_trigger. cbv beta iota zeta delta [handle].
    exists [EvGet url; EvPrint (PyStr (failure_message url (status_code response)))].
    split; [constructor; apply Z.eqb_neq, E200 |].
    rewrite events_record, events_after_get, <- app_assoc. reflexivity.
Qed.

(** *** One pass over the list *)

Lemma for_each_cons (n : nat) (url : string) (us : list string) (w : World) :
  run n (for_each (url :: us) ping) w =
  match run n (ping url) w with
  | Done _ w' spare => run spare (for_each us ping) w'
  | Raised exn w' => Raised exn w'
  | Running w' => Running w'
  end.
Proof. cbn [for_each]. apply run_bind. Qed.

Lemma sweep_shape (us : list string) (n : nat) (w : World) :
  match run n (for_each us ping) w with
  | Done _ w' _ =>
      exists turns, Forall2 turn us turns /\ events w' = events w ++ List.concat turns
  | Raised _ w' => exists evs, stopped_in us evs /\ events w' = events w ++ evs
  | Running w' => exists evs, stopped_in us evs /\ events w' = events w ++ evs
  end.
Proof.
  revert n w. induction us as [| url us IH]; intros n w.
  - cbn [for_each]. rewrite run_ret. exists []. split; [constructor |].
    symmetry. apply app_nil_r.
  - rewrite for_each_cons.
    pose proof (ping_shape n url w) as P.
    destruct (run n (ping url) w) as [[] w1 spare | exn w1 | w1].
    + destruct P as (evs & T & E1).
      specialize (IH spare w1).
      destruct (run spare (for_each us ping) w1) as [[] w2 spare2 | exn w2 | w2].
      * destruct IH as (turns & F & E2). exists (evs :: turns).
        split; [constructor; assumption |].
        rewrite E2, E1, <- app_assoc. reflexivity.
      * destruct IH as (evs2 & (us1 & u & us2 & turns & part & -> & F & Pt & ->) & E2).
        exists (evs ++ List.concat turns ++ part). split.
        -- exists (url :: us1), u, us2, (evs :: turns), part.
           repeat split; try assumption; [constructor; assumption |].
           cbn [List.concat]. rewrite <- app_assoc. reflexivity.
        -- rewrite E2, E1, <- app_assoc. reflexivity.
      * destruct IH as (evs2 & (us1 & u & us2 & turns & part & -> & F & Pt & ->) & E2).
        exists (evs ++ List.concat turns ++ part). split.
        -- exists (url :: us1), u, us2, (evs :: turns), part.
           repeat split; try assumption; [constructor; assumption |].
           cbn [List.concat]. rewrite <- app_assoc. reflexivity.
        -- rewrite E2, E1, <- app_assoc. reflexivity.
    + destruct P as (evs & T & E1). exists evs. split; [| exact E1].
      exists [], url, us, [], evs. repeat split; [constructor | assumption].
    + destruct P as (evs & T & E1). exists evs. split; [| exact E1].
      exists [], url, us, [], evs. repeat split; [constructor | assumption].
Qed.

(** *** Reading the calls of finished and unfinished turns *)

Lemma printed_of_app (a b : list event) :
  printed_of (a ++ b) = printed_of a ++ printed_of b.
Proof.
  induction a as [| [url | body | o | secs] a IH]; cbn; rewrite ?IH; reflexivity.
Qed.

Lemma requested_of_app (a b : list event) :
  requested_of (a ++ b) = requested_of a ++ requested_of b.
Proof.
  induction a as [| [url | body | o | secs] a IH]; cbn; rewrite ?IH; reflexivity.
Qed.

Lemma slept_of_app (a b : list event) :
  slept_of (a ++ b) = slept_of a ++ slept_of b.
Proof.
  induction a as [| [url | body | o | secs] a IH]; cbn; rewrite ?IH; reflexivity.
Qed.

Lemma decoded_of_app (a b : list event) :
  decoded_of (a ++ b) = decoded_of a ++ decoded_of b.
Proof.
  induction a as [| [url | body | o | secs] a IH]; cbn; rewrite ?IH; reflexivity.
Qed.

Lemma turn_requested (url : string) (evs : list event) :
  turn url evs -> requested_of evs = [url].
Proof. intros []; reflexivity. Qed.

Lemma turn_printed (url : string) (evs : list event) :
  turn url evs -> exists o, printed_of evs = [o].
Proof. intros []; eexists; reflexivity. Qed.

Lemma turn_slept (url : string) (evs : list event) :
  turn url evs -> slept_of evs = [].
Proof. intros []; reflexivity. Qed.

Lemma partial_turn_printed (url : string) (evs : list event) :
  partial_turn url evs -> printed_of evs = [].
Proof. intros []; reflexivity. Qed.

Lemma partial_turn_slept (url : string) (evs : list event) :
  partial_turn url evs -> slept_of evs = [].
Proof. intros []; reflexivity. Qed.

Lemma turns_requested (us : list string) (turns : list (list event)) :
  Forall2 turn us turns -> requested_of (List.concat turns) = us.
Proof.
  induction 1 as [| url evs us turns T _ IH]; [reflexivity |].
  cbn [List.concat]. rewrite requested_of_app, IH, (turn_requested _ _ T). reflexivity.
Qed.

Lemma turns_printed (us : list string) (turns : list (list event)) :
  Forall2 turn us turns ->
  List.length (printed_of (List.concat turns)) = List.length us.
Proof.
  induction 1 as [| url evs us turns T _ IH]; [reflexivity |].
  cbn [List.concat]. rewrite printed_of_app, length_app, IH.
  destruct (turn_printed _ _ T) as (o & ->). reflexivity.
Qed.

Lemma turns_slept (us : list string) (turns : list (list event)) :
  Forall2 turn us turns -> slept_of (List.concat turns) = [].
Proof.
  induction 1 as [| url evs us turns T _ IH]; [reflexivity |].
  cbn [List.concat]. rewrite slept_of_app, IH, (turn_slept _ _ T). reflexivity.
Qed.

Lemma stopped_in_slept (us : list string) (evs : list event) :
  stopped_in us evs -> slept_of evs = [].
Proof.
  intros (us1 & url & us2 & turns & part & _ & F & P & ->).
  rewrite slept_of_app, (turns_slept _ _ F), (partial_turn_slept _ _ P). reflexivity.
Qed.

(** *** Sequencing, again *)

Lemma run_bind_assoc {A B C : Type} (n : nat) (t : itree pingE A)
      (k : A -> itree pingE B) (h : B -> itree pingE C) (w : World) :
  run n (ITree.bind (ITree.bind t k) h) w =
  run n (ITree.bind t (fun a => ITree.bind (k a) h)) w.
Proof. apply run_eq_itree, bind_bind. Qed.

(** Once the turns of [us1] are over, the loop goes on with the rest of
    the list, and then with whatever follows the loop. *)
Lemma for_each_app_then {C : Type} (us1 us2 : list string) (n k : nat)
      (w w1 : World) (rest : itree pingE C) :
  completes_in json_loads n (for_each us1 ping) w w1 ->
  run (n + k) (for_each (us1 ++ us2) ping ;; rest) w =
  run k (for_each us2 ping ;; rest) w1.
Proof.
  unfold completes_in. revert n w.
  induction us1 as [| url us1 IH]; intros n w H.
  - cbn [for_each] in H. rewrite run_ret in H. injection H as -> ->. reflexivity.
  - rewrite for_each_cons in H.
    destruct (run n (ping url) w) as [[] w' spare | exn w' | w'] eqn:E; try discriminate.
    destruct (run_done_exact _ _ _ _ _ _ E) as (m & -> & Em).
    cbn [app for_each]. rewrite run_bind_assoc, run_bind.
    replace (m + spare + k) with (m + (spare + k)) by lia.
    rewrite (run_done_more _ _ _ _ _ _ Em (spare + k)). cbn [Nat.add].
    apply IH, H.
Qed.

(** The [while] loop is its body followed by the loop. *)
Lemma poller_loops (us : list string) :
  poller us ≅ (cycle_over us ;; Tau (poller us)).
Proof. apply unfold_forever. Qed.

Lemma poller_unfold (us : list string) (n : nat) (w : World) :
  run n (poller us) w = run n (cycle_over us ;; Tau (poller us)) w.
Proof. apply run_eq_itree, poller_loops. Qed.

Lemma cycle_completes (us : list string) (n : nat) (w w1 : World) :
  completes_in json_loads n (for_each us ping) w w1 ->
  completes_in json_loads (n + 1) (cycle_over us) w
    (elapse 240 (record (EvSleep 240) w1)).
Proof.
  unfold completes_in, cycle_over. intros H.
  rewrite run_bind, (run_done_more _ _ _ _ _ _ H 1). cbn [Nat.add].
  rewrite run_trigger. reflexivity.
Qed.

(** After a finished turn of [while], the loop runs again. *)
Lemma poller_next_cycle (us : list string) (n k : nat) (w w1 : World) :
  completes_in json_loads n (cycle_over us) w w1 ->
  run (n + 1 + k) (poller us) w = run k (poller us) w1.
Proof.
  unfold completes_in. intros H. unfold poller at 1.
  rewrite run_forever.
  replace (n + 1 + k) with (n + S k) by lia.
  rewrite (run_done_more _ _ _ _ _ _ H (S k)). reflexivity.
Qed.


(** *** An obliging network: nothing raises *)

Lemma obliging_kept {R : Type} (n : nat) (t : itree pingE R) (w : World) :
  obliging json_loads (net w) ->
  obliging json_loads (net (world_of (run n t w))).
Proof.
  intros H. destruct (run_grows n t w) as (es & _ & -> & _). exact H.
Qed.

Lemma ping_unraised (n : nat) (url : string) (w : World) :
  obliging json_loads (net w) -> unraised (run n (ping url) w).
Proof.
  intros H. destruct n as [| n]; [exact I |].
  rewrite ping_unfold.
  destruct (H (sent w)) as (d & response & -> & Hj).
  destruct (status_code response =? 200)%Z eqn:E200.
  - apply Z.eqb_eq in E200. specialize (Hj E200).
    destruct n as [| n]; [exact I |].
    rewrite run_bind, run_trigger. cbv beta iota zeta delta [handle].
    destruct (json_loads (text response)) as [data |]; [| congruence].
    destruct n as [| n]; [exact I |].
    rewrite run_trigger. exact I.
  - destruct n as [| n]; [exact I |].
    rewrite run_trigger. exact I.
Qed.

Lemma sweep_unraised (us : list string) (n : nat) (w : World) :
  obliging json_loads (net w) -> unraised (run n (for_each us ping) w).
Proof.
  revert n w. induction us as [| url us IH]; intros n w H.
  - cbn [for_each]. rewrite run_ret. exact I.
  - rewrite for_each_cons.
    pose proof (ping_unraised n url w H) as P.
    pose proof (obliging_kept n (ping url) w H) as K.
    destruct (run n (ping url) w) as [[] w1 spare | exn w1 | w1]; try assumption.
    apply IH, K.
Qed.

Lemma cycle_unraised (us : list string) (n : nat) (w : World) :
  obliging json_loads (net w) -> unraised (run n (cycle_over us) w).
Proof.
  intros H. unfold cycle_over. rewrite run_bind.
  pose proof (sweep_unraised us n w H) as P.
  destruct (run n (for_each us ping) w) as [[] w1 spare | exn w1 | w1]; try assumption.
  destruct spare as [| spare]; [exact I |].
  rewrite run_trigger. exact I.
Qed.

Lemma forever_keeps_running {T : Type} (us : list string) (n : nat) (w : World) :
  obliging json_loads (net w) ->
  exists w', run n (ITree.forever (cycle_over us) : itree pingE T) w = Running w'.
Proof.
  revert w. induction n as [n IH] using lt_wf_ind. intros w H.
  rewrite run_forever.
  pose proof (cycle_unraised us n w H) as P.
  pose proof (obliging_kept n (cycle_over us) w H) as K.
  destruct (run n (cycle_over us) w) as [[] w1 spare | exn w1 | w1] eqn:E.
  - destruct spare as [| spare]; [eexists; reflexivity |].
    destruct (run_done_exact _ _ _ _ _ _ E) as (m & -> & _).
    apply IH; [lia | exact K].
  - destruct P.
  - eexists. reflexivity.
Qed.

Lemma poller_keeps_running (us : list string) (n : nat) (w : World) :
  obliging json_loads (net w) ->
  exists w', run n (poller us) w = Running w'.
Proof. apply forever_keeps_running. Qed.

End RunFacts.

(* ===================================================================== *)
(** ** Turns of the [while] loop *)
(* ===================================================================== *)

Section Cycles.

Variable json_loads : string -> option pyvalue.

Lemma run_events {R : Type} (n : nat) (t : itree pingE R) (w : World) :
  exists evs, events (world_of (run json_loads n t w)) = events w ++ evs.
Proof.
  destruct (run_grows json_loads n t w) as (es & L & _).
  exists (List.map snd es). unfold events. rewrite L. apply map_app.
Qed.

(** The first step of a turn of [for] is the request, made at once. *)
Lemma ping_first_step (url : string) (w : World) :
  run json_loads 1 (ping url) w = Running (after_get url w) \/
  exists name, run json_loads 1 (ping url) w = Raised (TransportError name) (after_get url w).
Proof.
  rewrite ping_unfold.
  destruct (net w (sent w)) as [d response | d name]; [left | right; eauto].
  destruct (status_code response =? 200)%Z; reflexivity.
Qed.

Lemma poller_first_step (url : string) (us : list string) (w : World) :
  world_of (run json_loads 1 (poller (url :: us)) w) = after_get url w.
Proof.
  unfold poller, cycle_over. rewrite run_forever, run_bind, for_each_cons.
  destruct (ping_first_step url w) as [-> | (name & ->)]; reflexivity.
Qed.

Lemma log_after_get (url : string) (w : World) :
  log (after_get url w) = log w ++ [(now w, EvGet url)].
Proof. reflexivity. Qed.

(** Whatever the fuel, the first call of the loop is the request for the
    first URL, stamped with the time the loop was entered. *)
Lemma poller_first_call (url : string) (us : list string) (k : nat) (w : World) :
  exists es,
    log (world_of (run json_loads (S k) (poller (url :: us)) w)) =
    log w ++ (now w, EvGet url) :: es.
Proof.
  destruct (run_fuel_grows json_loads 1 k (poller (url :: us)) w) as (es & L & _).
  exists es. cbn [Nat.add] in L. rewrite L, poller_first_step, log_after_get.
  rewrite <- app_assoc. reflexivity.
Qed.

(** In a run of the loop, a sleep is only ever logged after the calls of
    a full pass over the list. *)
Lemma poller_sleeps_after_pass (us : list string) (n : nat) (w : World) :
  exists evs,
    events (world_of (run json_loads n (poller us) w)) = events w ++ evs /\
    (slept_of evs = [] \/
     exists turns rest,
       Forall2 turn us turns /\ evs = List.concat turns ++ EvSleep 240 :: rest).
Proof.
  unfold poller, cycle_over. rewrite run_forever, run_bind.
  pose proof (sweep_shape json_loads us n w) as P.
  destruct (run json_loads n (for_each us ping) w)
    as [[] w1 spare | exn w1 | w1].
  - destruct P as (turns & F & E).
    destruct spare as [| spare].
    + exists (List.concat turns). split; [exact E |].
      left. apply (turns_slept _ _ F).
    + rewrite run_trigger. cbv beta iota zeta delta [handle].
      destruct spare as [| spare].
      * exists (List.concat turns ++ [EvSleep 240]). split.
        -- cbn [world_of]. rewrite events_elapse, events_record, E, <- app_assoc.
           reflexivity.
        -- right. exists turns, []. split; [exact F | reflexivity].
      * destruct (run_events spare (ITree.forever (for_each us ping;;
                                      ITree.trigger (time_sleep 240)) : itree pingE void)
                    (elapse 240 (record (EvSleep 240) w1))) as (rest & Er).
        exists (List.concat turns ++ EvSleep 240 :: rest). split.
        -- rewrite Er, events_elapse, events_record, E, <- !app_assoc. reflexivity.
        -- right. exists turns, rest. split; [exact F | reflexivity].
  - destruct P as (evs & St & E). exists evs. split; [exact E |].
    left. apply (stopped_in_slept _ _ St).
  - destruct P as (evs & St & E). exists evs. split; [exact E |].
    left. apply (stopped_in_slept _ _ St).
Qed.



(** A loop over a list that is not empty starts with the request for its
    first URL, whatever follows the loop. *)
Lemma sweep_first_step {C : Type} (url : string) (us : list string)
      (rest : itree pingE C) (w : World) :
  world_of (run json_loads 1 (for_each (url :: us) ping ;; rest) w) = after_get url w.
Proof.
  rewrite run_bind, for_each_cons.
  destruct (ping_first_step url w) as [-> | (name & ->)]; reflexivity.
Qed.

Lemma sweep_first_call {C : Type} (url : string) (us : list string)
      (rest : itree pingE C) (k : nat) (w : World) :
  exists es,
    log (world_of (run json_loads (S k) (for_each (url :: us) ping ;; rest) w)) =
    log w ++ (now w, EvGet url) :: es.
Proof.
  destruct (run_fuel_grows json_loads 1 k (for_each (url :: us) ping ;; rest) w)
    as (es & L & _).
  exists es. cbn [Nat.add] in L. rewrite L, sweep_first_step, log_after_get.
  rewrite <- app_assoc. reflexivity.
Qed.

(** What follows the turns of [us1] in a run of the loop over
    [us1 ++ us2]: the turns of [us2], the sleep, and the loop again. *)
Lemma poller_mid_cycle (us1 us2 : list string) (n k : nat) (w w1 : World) :
  completes_in json_loads n (for_each us1 ping) w w1 ->
  run json_loads (n + k) (poller (us1 ++ us2)) w =
  run json_loads k (cycle_over us2 ;; Tau (poller (us1 ++ us2))) w1.
Proof.
  intros H. rewrite poller_unfold. unfold cycle_over.
  rewrite !run_bind_assoc.
  apply (for_each_app_then json_loads us1 us2 n k w w1 _ H).
Qed.

(** The requests of one turn of [while], finished or not, are those of
    the list, or of a beginning of the list. *)
Lemma cycle_requests (us : list string) (n : nat) (w : World) :
  exists evs,
    events (world_of (run json_loads n (cycle_over us) w)) = events w ++ evs /\
    match run json_loads n (cycle_over us) w with
    | Done _ _ _ => requested_of evs = us
    | _ => exists post, us = requested_of evs ++ post
    end.
Proof.
  unfold cycle_over. rewrite run_bind.
  pose proof (sweep_shape json_loads us n w) as P.
  destruct (run json_loads n (for_each us ping) w) as [[] w1 spare | exn w1 | w1].
  - destruct P as (turns & F & E).
    destruct spare as [| spare].
    + exists (List.concat turns). split; [exact E |].
      exists []. rewrite (turns_requested us turns F). symmetry. apply app_nil_r.
    + rewrite run_trigger. cbv beta iota zeta delta [handle]. cbn [world_of].
      exists (List.concat turns ++ [EvSleep 240]). split.
      * rewrite events_elapse, events_record, E, <- app_assoc. reflexivity.
      * rewrite requested_of_app, (turns_requested us turns F). apply app_nil_r.
  - destruct P as (evs & (us1 & url & us2 & turns & part & -> & F & Pt & ->) & E).
    exists (List.concat turns ++ part). split; [exact E |].
    rewrite requested_of_app, (turns_requested us1 turns F).
    destruct Pt; cbn [requested_of].
    + exists (url :: us2). rewrite app_nil_r. reflexivity.
    + exists us2. rewrite <- app_assoc. reflexivity.
    + exists us2. rewrite <- app_assoc. reflexivity.
  - destruct P as (evs & (us1 & url & us2 & turns & part & -> & F & Pt & ->) & E).
    exists (List.concat turns ++ part). split; [exact E |].
    rewrite requested_of_app, (turns_requested us1 turns F).
    destruct Pt; cbn [requested_of].
    + exists (url :: us2). rewrite app_nil_r. reflexivity.
    + exists us2. rewrite <- app_assoc. reflexivity.
    + exists us2. rewrite <- app_assoc. reflexivity.
Qed.

End Cycles.

(* ===================================================================== *)
(** ** A pass in closed form *)
(* ===================================================================== *)

Section Passes.

Variable json_loads : string -> option pyvalue.

Lemma printed_record_print (o : pyvalue) (w : World) :
  printed (record (EvPrint o) w) = printed w ++ [o].
Proof. unfold printed. rewrite events_record, printed_of_app. reflexivity. Qed.

Lemma printed_record_json (body : string) (w : World) :
  printed (record (EvJson body) w) = printed w.
Proof.
  unfold printed. rewrite events_record, printed_of_app. apply app_nil_r.
Qed.

Lemma printed_after_get (url : string) (w : World) :
  printed (after_get url w) = printed w.
Proof.
  unfold printed. rewrite events_after_get, printed_of_app. apply app_nil_r.
Qed.

(** A turn that returns has printed the line of its reply, counted one
    request and taken the time of that request. *)
Lemma ping_done (n : nat) (url : string) (w w' : World) (spare : nat) :
  run json_loads n (ping url) w = Done tt w' spare ->
  exists line,
    reply_line json_loads url (net w (sent w)) = Some line /\
    printed w' = printed w ++ [line] /\
    sent w' = S (sent w) /\
    now w' = (now w + latency_of (net w (sent w)))%N /\
    net w' = net w.
Proof.
  destruct n as [| n]; [discriminate |].
  rewrite ping_unfold. unfold reply_line.
  destruct (net w (sent w)) as [d response | d name] eqn:En; [| discriminate].
  destruct (status_code response =? 200)%Z.
  - destruct n as [| n]; [discriminate |].
    rewrite run_bind, run_trigger. cbv beta iota zeta delta [handle].
    destruct (json_loads (text response)) as [data |]; [| discriminate].
    destruct n as [| n]; [discriminate |].
    rewrite run_trigger. cbv beta iota zeta delta [handle].
    intros [= <- _]. exists data. split; [reflexivity |].
    rewrite printed_record_print, printed_record_json, printed_after_get.
    unfold after_get. rewrite En. repeat split.
  - destruct n as [| n]; [discriminate |].
    rewrite run_trigger. cbv beta iota zeta delta [handle].
    intros [= <- _]. eexists. split; [reflexivity |].
    rewrite printed_record_print, printed_after_get.
    unfold after_get. rewrite En. repeat split.
Qed.

(** A turn whose reply has a line returns, in two calls or three. *)
Lemma ping_runs (url : string) (w : World) (line : pyvalue) :
  reply_line json_loads url (net w (sent w)) = Some line ->
  exists c w', c <= 3 /\ forall n, run json_loads (c + n) (ping url) w = Done tt w' n.
Proof.
  unfold reply_line.
  destruct (net w (sent w)) as [d response | d name] eqn:En; [| discriminate].
  destruct (status_code response =? 200)%Z eqn:E200; intros H.
  - apply Z.eqb_eq in E200. exists 3. eexists. split; [lia |]. intros n.
    apply (ping_decoded json_loads n url w d response line En E200 H).
  - apply Z.eqb_neq in E200. exists 2. eexists. split; [lia |]. intros n.
    apply (ping_failed json_loads n url w d response En E200).
Qed.

(** A pass that returns has printed the lines of its replies, in the
    order of the list. *)
Lemma pass_done (us : list string) (n : nat) (w w1 : World) (spare : nat) :
  run json_loads n (for_each us ping) w = Done tt w1 spare ->
  exists lines,
    pass_lines json_loads us (net w) (sent w) = Some lines /\
    printed w1 = printed w ++ lines /\
    sent w1 = sent w + List.length us /\
    now w1 = (now w + pass_time (List.length us) (net w) (sent w))%N /\
    net w1 = net w.
Proof.
  revert n w. induction us as [| url us IH]; intros n w H.
  - cbn [for_each] in H. rewrite run_ret in H. injection H as <- _.
    exists []. cbn. rewrite app_nil_r, N.add_0_r, Nat.add_0_r. repeat split.
  - rewrite for_each_cons in H.
    destruct (run json_loads n (ping url) w) as [[] w' spare' | exn w' | w'] eqn:E;
      try discriminate.
    destruct (ping_done n url w w' spare' E) as (line & Hl & Hp & Hs & Ht & Hn).
    destruct (IH spare' w' H) as (lines & Hls & Hp1 & Hs1 & Ht1 & Hn1).
    exists (line :: lines). cbn [pass_lines pass_time List.length].
    rewrite Hl. rewrite Hn, Hs in Hls. rewrite Hn, Hs in Ht1.
    rewrite Hls. cbn [option_map].
    rewrite Hp1, Hp, <- app_assoc, Hs1, Hs, Ht1, Ht, Hn1, Hn.
    repeat split; try reflexivity; lia.
Qed.

(** A pass all of whose replies have a line returns, in at most three
    calls for each URL. *)
Lemma pass_runs (us : list string) (w : World) (lines : list pyvalue) :
  pass_lines json_loads us (net w) (sent w) = Some lines ->
  exists n w1,
    n <= 3 * List.length us /\
    completes_in json_loads n (for_each us ping) w w1.
Proof.
  unfold completes_in. revert w lines.
  induction us as [| url us IH]; intros w lines H.
  - exists 0, w. split; [cbn; lia |]. cbn [for_each]. apply run_ret.
  - cbn [pass_lines] in H.
    destruct (reply_line json_loads url (net w (sent w))) as [line |] eqn:Hl;
      [| discriminate].
    destruct (pass_lines json_loads us (net w) (S (sent w))) as [ls |] eqn:Hls;
      [| discriminate].
    destruct (ping_runs url w line Hl) as (c & w' & Hc & Hrun).
    destruct (ping_done (c + 0) url w w' 0 (Hrun 0)) as (_ & _ & _ & Hs & _ & Hn).
    rewrite <- Hn, <- Hs in Hls.
    destruct (IH w' ls Hls) as (n & w1 & Hle & Hn1).
    exists (c + n), w1. split; [cbn [List.length]; lia |].
    rewrite for_each_cons, Hrun. exact Hn1.
Qed.

(** A turn of [while] that returns: the pass, then 240 more on the clock. *)
Lemma cycle_done (us : list string) (n : nat) (w w' : World) (spare : nat) :
  run json_loads n (cycle_over us) w = Done tt w' spare ->
  exists lines,
    pass_lines json_loads us (net w) (sent w) = Some lines /\
    printed w' = printed w ++ lines /\
    sent w' = sent w + List.length us /\
    now w' = (now w + pass_time (List.length us) (net w) (sent w) + 240)%N /\
    net w' = net w.
Proof.
  unfold cycle_over. rewrite run_bind. intros H.
  destruct (run json_loads n (for_each us ping) w) as [[] w1 spare1 | exn w1 | w1] eqn:E;
    try discriminate.
  destruct (pass_done us n w w1 spare1 E) as (lines & Hl & Hp & Hs & Ht & Hn).
  destruct spare1 as [| spare1]; [discriminate |].
  rewrite run_trigger in H. cbv beta iota zeta delta [handle] in H.
  injection H as <- _.
  exists lines. unfold printed in *.
  rewrite events_elapse, events_record, printed_of_app. cbn [printed_of elapse record now sent net].
  rewrite app_nil_r, Hp, Hs, Ht, Hn. repeat split. exact Hl.
Qed.

(** The lines of a pass depend on the responses only, and only on those
    to its own requests. *)
Lemma reply_line_same (url : string) (a b : Reply) :
  same_reply a b -> reply_line json_loads url a = reply_line json_loads url b.
Proof.
  destruct a as [d1 r1 | d1 n1], b as [d2 r2 | d2 n2]; cbn; try contradiction.
  - intros ->. reflexivity.
  - reflexivity.
Qed.

Lemma pass_lines_same (us : list string) (n1 n2 : nat -> Reply) (k1 k2 : nat) :
  (forall i, i < List.length us -> same_reply (n1 (k1 + i)) (n2 (k2 + i))) ->
  pass_lines json_loads us n1 k1 = pass_lines json_loads us n2 k2.
Proof.
  revert k1 k2. induction us as [| url us IH]; intros k1 k2 H; [reflexivity |].
  cbn [pass_lines].
  pose proof (H 0 ltac:(cbn; lia)) as H0. rewrite !Nat.add_0_r in H0.
  rewrite (reply_line_same url _ _ H0).
  rewrite (IH (S k1) (S k2)); [reflexivity |].
  intros i Hi. specialize (H (S i) ltac:(cbn; lia)).
  rewrite !Nat.add_succ_r in H. exact H.
Qed.

(** *** The calls of a whole run *)

Lemma unfinished_nil (us : list string) : unfinished_cycle us [].
Proof.
  destruct us as [| url us].
  - right. exists []. split; [constructor | reflexivity].
  - left. exists [], url, us, [], []. repeat split; constructor.
Qed.

(** Any run of the loop, of any length and from any world, has made the
    calls of some finished turns of [while] and then of a turn that is
    not finished. *)
Lemma poller_calls (us : list string) (n : nat) (w : World) :
  exists evs,
    events (world_of (run json_loads n (poller us) w)) = events w ++ evs /\
    loop_calls us evs.
Proof.
  revert w. induction n as [n IH] using lt_wf_ind. intros w.
  unfold poller, cycle_over. rewrite run_forever, run_bind.
  pose proof (sweep_shape json_loads us n w) as P.
  destruct (run json_loads n (for_each us ping) w) as [[] w1 spare | exn w1 | w1] eqn:E.
  - destruct P as (turns & F & Ev).
    destruct spare as [| spare].
    + exists (List.concat turns). split; [exact Ev |].
      exists [], (List.concat turns).
      split; [constructor | split; [| reflexivity]].
      right. exists turns. split; [exact F | reflexivity].
    + rewrite run_trigger. cbv beta iota zeta delta [handle].
      destruct spare as [| spare].
      * exists (cycle_calls turns). split.
        -- cbn [world_of]. unfold cycle_calls.
           rewrite events_elapse, events_record, Ev, <- app_assoc. reflexivity.
        -- exists [turns], [].
           split; [constructor; [exact F | constructor] | split].
           ++ apply unfinished_nil.
           ++ cbn. rewrite !app_nil_r. reflexivity.
      * destruct (run_done_exact json_loads _ _ _ _ _ _ E) as (m & -> & _).
        destruct (IH spare ltac:(lia) (elapse 240 (record (EvSleep 240) w1)))
          as (evs & Ev' & (cycles & tail & Fc & U & ->)).
        exists (cycle_calls turns ++ List.concat (List.map cycle_calls cycles) ++ tail).
        split.
        -- fold (cycle_over us). fold (poller us). rewrite Ev'.
           rewrite events_elapse, events_record, Ev. unfold cycle_calls.
           rewrite <- !app_assoc. reflexivity.
        -- exists (turns :: cycles), tail.
           split; [constructor; assumption | split; [exact U |]].
           cbn [List.map List.concat]. rewrite <- app_assoc. reflexivity.
  - destruct P as (evs & St & Ev). exists evs. split; [exact Ev |].
    exists [], evs. split; [constructor | split; [left; exact St | reflexivity]].
  - destruct P as (evs & St & Ev). exists evs. split; [exact Ev |].
    exists [], evs. split; [constructor | split; [left; exact St | reflexivity]].
Qed.

(** Counting in the calls of turns. *)
Lemma cycles_requested (us : list string) (cycles : list (list (list event))) :
  Forall (Forall2 turn us) cycles ->
  requested_of (List.concat (List.map cycle_calls cycles)) =
  List.concat (List.repeat us (List.length cycles)).
Proof.
  induction 1 as [| turns cycles F _ IH]; [reflexivity |].
  cbn [List.map List.concat List.length List.repeat]. unfold cycle_calls at 1.
  rewrite !requested_of_app, (turns_requested us turns F), IH. cbn [requested_of].
  rewrite app_nil_r. reflexivity.
Qed.

Lemma cycles_slept (us : list string) (cycles : list (list (list event))) :
  Forall (Forall2 turn us) cycles ->
  slept_of (List.concat (List.map cycle_calls cycles)) =
  List.repeat 240%N (List.length cycles).
Proof.
  induction 1 as [| turns cycles F _ IH]; [reflexivity |].
  cbn [List.map List.concat List.length List.repeat]. unfold cycle_calls at 1.
  rewrite !slept_of_app, (turns_slept us turns F), IH. reflexivity.
Qed.

Lemma turns_balanced (us : list string) (turns : list (list event)) :
  Forall2 turn us turns ->
  List.length (requested_of (List.concat turns)) =
  List.length (printed_of (List.concat turns)).
Proof.
  intros F. rewrite (turns_requested us turns F), (turns_printed us turns F).
  reflexivity.
Qed.

Lemma cycles_balanced (us : list string) (cycles : list (list (list event))) :
  Forall (Forall2 turn us) cycles ->
  List.length (requested_of (List.concat (List.map cycle_calls cycles))) =
  List.length (printed_of (List.concat (List.map cycle_calls cycles))).
Proof.
  induction 1 as [| turns cycles F _ IH]; [reflexivity |].
  cbn [List.map List.concat]. unfold cycle_calls at 1 3.
  rewrite !requested_of_app, !printed_of_app, !length_app, IH,
    (turns_balanced us turns F).
  reflexivity.
Qed.

(** A turn of [while] all of whose replies have a line runs to its end. *)
Lemma cycle_runs (us : list string) (w : World) (lines : list pyvalue) :
  pass_lines json_loads us (net w) (sent w) = Some lines ->
  exists n w',
    n <= 3 * List.length us + 1 /\
    completes_in json_loads n (cycle_over us) w w'.
Proof.
  intros H. destruct (pass_runs us w lines H) as (n & w1 & Hle & Hn).
  exists (n + 1). eexists. split; [lia |].
  apply (cycle_completes json_loads us n w w1 Hn).
Qed.

End Passes.

(* ===================================================================== *)
(** ** The runner with any libraries *)
(* ===================================================================== *)

(** [handle] and [run] are [handle_in] and [run_in] with a console that
    takes every value and a decoder whose one failure is a
    [JSONDecodeError]. *)
Lemma handle_lenient {X : Type} (json_loads : string -> option pyvalue)
      (e : pingE X) (w : World) :
  handle json_loads e w = handle_in (lenient json_loads) e w.
Proof.
  destruct e as [url | response | o | secs]; cbn; try reflexivity.
  destruct (json_loads (text response)); reflexivity.
Qed.

Lemma run_lenient {R : Type} (json_loads : string -> option pyvalue)
      (n : nat) (t : itree pingE R) (w : World) :
  run json_loads n t w = run_in (lenient json_loads) n t w.
Proof.
  revert t w. induction n as [| n IH]; intros t w; cbn;
    destruct (observe t) as [r | t' | X e k]; try reflexivity.
  - apply IH.
  - rewrite handle_lenient.
    destruct (handle_in (lenient json_loads) e w) as [[x | exn] w']; [apply IH | reflexivity].
Qed.

Section RunInFacts.

Variable L : Libs.

Lemma run_in_unfold {R : Type} (fuel : nat) (t : itree pingE R) (w : World) :
  run_in L fuel t w =
  match observe t with
  | RetF r => Done r w fuel
  | TauF t' =>
      match fuel with
      | O => Running w
      | S fuel' => run_in L fuel' t' w
      end
  | VisF e k =>
      match fuel with
      | O => Running w
      | S fuel' =>
          match handle_in L e w with
          | (inl x, w') => run_in L fuel' (k x) w'
          | (inr exn, w') => Raised exn w'
          end
      end
  end.
Proof. destruct fuel; reflexivity. Qed.

Lemma run_in_observe {R : Type} (fuel : nat) (t u : itree pingE R) (w : World) :
  observe t = observe u -> run_in L fuel t w = run_in L fuel u w.
Proof.
  intros H. rewrite (run_in_unfold fuel t), (run_in_unfold fuel u), H. reflexivity.
Qed.

Lemma run_in_ret {R : Type} (fuel : nat) (r : R) (w : World) :
  run_in L fuel (Ret r) w = Done r w fuel.
Proof. rewrite run_in_unfold. reflexivity. Qed.

Lemma run_in_trigger {X : Type} (fuel : nat) (e : pingE X) (w : World) :
  run_in L (S fuel) (ITree.trigger e) w =
  match handle_in L e w with
  | (inl x, w') => Done x w' fuel
  | (inr exn, w') => Raised exn w'
  end.
Proof.
  cbn. destruct (handle_in L e w) as [[x | exn] w']; [apply run_in_ret | reflexivity].
Qed.

Lemma run_in_trigger_0 {X : Type} (e : pingE X) (w : World) :
  run_in L 0 (ITree.trigger e) w = Running w.
Proof. reflexivity. Qed.

Lemma run_in_bind {R T : Type} (fuel : nat) (t : itree pingE R)
      (k : R -> itree pingE T) (w : World) :
  run_in L fuel (ITree.bind t k) w =
  match run_in L fuel t w with
  | Done r w' spare => run_in L spare (k r) w'
  | Raised exn w' => Raised exn w'
  | Running w' => Running w'
  end.
Proof.
  revert t w. induction fuel as [| fuel IH]; intros t w.
  - rewrite (run_in_unfold 0 (ITree.bind t k)), (run_in_unfold 0 t), observe_bind.
    destruct (observe t) as [r | t' | X e h]; cbn; reflexivity.
  - rewrite (run_in_unfold (S fuel) (ITree.bind t k)), (run_in_unfold (S fuel) t),
      observe_bind.
    destruct (observe t) as [r | t' | X e h]; cbn.
    + reflexivity.
    + apply IH.
    + destruct (handle_in L e w) as [[x | exn] w']; [apply IH | reflexivity].
Qed.

Lemma run_in_forever {R T : Type} (fuel : nat) (t : itree pingE R) (w : World) :
  run_in L fuel (ITree.forever t : itree pingE T) w =
  match run_in L fuel t w with
  | Done _ w' (S spare) => run_in L spare (ITree.forever t) w'
  | Done _ w' O => Running w'
  | Raised exn w' => Raised exn w'
  | Running w' => Running w'
  end.
Proof.
  rewrite (run_in_observe fuel _ _ w (observing_observe (unfold_forever_ t))).
  rewrite run_in_bind.
  destruct (run_in L fuel t w) as [r w' spare | exn w' | w']; try reflexivity.
  destruct spare; reflexivity.
Qed.

(** *** Fuel *)

Lemma run_in_done_more {R : Type} (n : nat) (t : itree pingE R) (w w' : World)
      (r : R) (spare : nat) :
  run_in L n t w = Done r w' spare ->
  forall k, run_in L (n + k) t w = Done r w' (spare + k).
Proof.
  revert t w. induction n as [| n IH]; intros t w H k.
  - rewrite run_in_unfold in H. rewrite run_in_unfold.
    destruct (observe t) as [r0 | t' | X e h]; try discriminate.
    injection H as -> -> <-. reflexivity.
  - rewrite run_in_unfold in H. rewrite run_in_unfold.
    destruct (observe t) as [r0 | t' | X e h].
    + injection H as -> -> <-. reflexivity.
    + cbn. apply IH, H.
    + cbn. destruct (handle_in L e w) as [[x | exn] w1]; [apply IH, H | discriminate].
Qed.

Lemma run_in_raised_more {R : Type} (n : nat) (t : itree pingE R) (w w' : World)
      (exn : pyexn) :
  run_in L n t w = Raised exn w' ->
  forall k, run_in L (n + k) t w = Raised exn w'.
Proof.
  revert t w. induction n as [| n IH]; intros t w H k.
  - rewrite run_in_unfold in H.
    destruct (observe t) as [r0 | t' | X e h]; discriminate.
  - rewrite run_in_unfold in H. rewrite run_in_unfold.
    destruct (observe t) as [r0 | t' | X e h].
    + discriminate.
    + cbn. apply IH, H.
    + cbn. destruct (handle_in L e w) as [[x | e'] w1]; [apply IH, H | exact H].
Qed.

Lemma run_in_done_exact {R : Type} (n : nat) (t : itree pingE R) (w w' : World)
      (r : R) (spare : nat) :
  run_in L n t w = Done r w' spare ->
  exists m, n = m + spare /\ run_in L m t w = Done r w' 0.
Proof.
  revert t w. induction n as [| n IH]; intros t w H.
  - rewrite run_in_unfold in H.
    destruct (observe t) as [r0 | t' | X e h] eqn:E; try discriminate.
    injection H as -> -> <-. exists 0. split; [reflexivity |].
    rewrite run_in_unfold, E. reflexivity.
  - rewrite run_in_unfold in H.
    destruct (observe t) as [r0 | t' | X e h] eqn:E.
    + injection H as -> -> <-. exists 0. split; [reflexivity |].
      rewrite run_in_unfold, E. reflexivity.
    + destruct (IH _ _ H) as (m & -> & Hm). exists (S m). split; [reflexivity |].
      rewrite run_in_unfold, E. exact Hm.
    + destruct (handle_in L e w) as [[x | exn] w1] eqn:Eh; [| discriminate].
      destruct (IH _ _ H) as (m & -> & Hm). exists (S m). split; [reflexivity |].
      rewrite run_in_unfold, E, Eh. exact Hm.
Qed.

(** *** What a run leaves alone, and what it can only add to *)

(** A call adds its entry to the log, or nothing when it is a [print]
    that raises. *)
Lemma handle_in_grows {X : Type} (e : pingE X) (w : World) :
  exists es, grows w (snd (handle_in L e w)) es.
Proof.
  destruct e as [url | response | o | secs]; cbn.
  - exists [(now w, EvGet url)].
    destruct (net w (sent w)) as [d r | d name]; cbn;
      repeat split; cbn; try lia; repeat constructor; cbn; lia.
  - exists [(now w, EvJson (text response))].
    destruct (loads L (text response)); cbn;
      repeat split; cbn; try lia; repeat constructor; cbn; lia.
  - destruct (write L o) as [exn |]; cbn.
    + exists []. apply grows_refl.
    + exists [(now w, EvPrint o)].
      repeat split; cbn; try lia; repeat constructor; cbn; lia.
  - exists [(now w, EvSleep secs)].
    repeat split; cbn; try lia; repeat constructor; cbn; lia.
Qed.

Lemma run_in_grows {R : Type} (n : nat) (t : itree pingE R) (w : World) :
  exists es, grows w (world_of (run_in L n t w)) es.
Proof.
  revert t w. induction n as [| n IH]; intros t w; rewrite run_in_unfold.
  - exists []. destruct (observe t); apply grows_refl.
  - destruct (observe t) as [r | t' | X e h].
    + exists []. apply grows_refl.
    + apply IH.
    + destruct (handle_in_grows e w) as (es0 & G).
      destruct (handle_in L e w) as [[x | exn] w1]; cbn in G.
      * destruct (IH (h x) w1) as (es & G').
        eexists. eapply grows_trans; eassumption.
      * eexists. exact G.
Qed.

Lemma run_in_fuel_grows {R : Type} (n k : nat) (t : itree pingE R) (w : World) :
  exists es, grows (world_of (run_in L n t w)) (world_of (run_in L (n + k) t w)) es.
Proof.
  revert t w. induction n as [| n IH]; intros t w.
  - rewrite (run_in_unfold 0 t).
    destruct (observe t) as [r | t' | X e h] eqn:E.
    + rewrite run_in_unfold, E. exists []. apply grows_refl.
    + apply run_in_grows.
    + apply run_in_grows.
  - rewrite (run_in_unfold (S n) t), (run_in_unfold (S n + k) t).
    destruct (observe t) as [r | t' | X e h]; cbn.
    + exists []. apply grows_refl.
    + apply IH.
    + destruct (handle_in L e w) as [[x | exn] w1]; [apply IH |].
      exists []. apply grows_refl.
Qed.

(** *** One turn of the [for] loop *)

Lemma ping_in_unfold (n : nat) (url : string) (w : World) :
  run_in L (S n) (ping url) w =
  match net w (sent w) with
  | Broken _ name => Raised (TransportError name) (after_get url w)
  | Answer _ response =>
      if (status_code response =? 200)%Z then
        run_in L n (data <- ITree.trigger (response_json response) ;;
                    ITree.trigger (print data)) (after_get url w)
      else
        run_in L n (ITree.trigger
                      (print (PyStr (failure_message url (status_code response)))))
               (after_get url w)
  end.
Proof.
  unfold ping. rewrite run_in_bind, run_in_trigger. unfold after_get.
  cbv beta iota zeta delta [handle_in].
  destruct (net w (sent w)) as [d response | d name]; [| reflexivity].
  destruct (status_code response =? 200)%Z; reflexivity.
Qed.

(** The decoding and the print of a 200, once the request is over. *)
Lemma decode_print_in (n : nat) (response : Response) (w : World) :
  run_in L (2 + n) (data <- ITree.trigger (response_json response) ;;
                    ITree.trigger (print data)) w =
  match loads L (text response) with
  | inl data =>
      match write L data with
      | None => Done tt (record (EvPrint data) (record (EvJson (text response)) w)) n
      | Some exn => Raised exn (record (EvJson (text response)) w)
      end
  | inr exn => Raised exn (record (EvJson (text response)) w)
  end.
Proof.
  cbn [Nat.add]. rewrite run_in_bind, run_in_trigger.
  cbv beta iota zeta delta [handle_in].
  destruct (loads L (text response)) as [data | exn]; [| reflexivity].
  rewrite run_in_trigger. cbv beta iota zeta delta [handle_in].
  destruct (write L data); reflexivity.
Qed.

(** A 200 whose body decodes and whose value the console takes. *)
Lemma ping_in_decoded (n : nat) (url : string) (w : World) (d : N)
      (response : Response) (data : pyvalue) :
  net w (sent w) = Answer d response ->
  status_code response = 200%Z ->
  loads L (text response) = inl data ->
  write L data = None ->
  run_in L (3 + n) (ping url) w =
  Done tt (record (EvPrint data)
             (record (EvJson (text response)) (after_get url w))) n.
Proof.
  intros H H200 Hj Hw. cbn [Nat.add]. rewrite ping_in_unfold, H, H200. cbn [Z.eqb Pos.eqb].
  rewrite (decode_print_in n response), Hj, Hw. reflexivity.
Qed.

(** A 200 whose body decodes to a value the console does not take. *)
Lemma ping_in_unprinted (n : nat) (url : string) (w : World) (d : N)
      (response : Response) (data : pyvalue) (exn : pyexn) :
  net w (sent w) = Answer d response ->
  status_code response = 200%Z ->
  loads L (text response) = inl data ->
  write L data = Some exn ->
  run_in L (3 + n) (ping url) w =
  Raised exn (record (EvJson (text response)) (after_get url w)).
Proof.
  intros H H200 Hj Hw. cbn [Nat.add]. rewrite ping_in_unfold, H, H200. cbn [Z.eqb Pos.eqb].
  rewrite (decode_print_in n response), Hj, Hw. reflexivity.
Qed.

(** Whatever the fuel, the network and the libraries, the calls of a
    turn on [url] are those of a finished turn when it returns, and a
    beginning of one when it does not. *)
Lemma ping_in_shape (n : nat) (url : string) (w : World) :
  match run_in L n (ping url) w with
  | Done _ w' _ => exists evs, turn url evs /\ events w' = events w ++ evs
  | Raised _ w' => exists evs, partial_turn url evs /\ events w' = events w ++ evs
  | Running w' => exists evs, partial_turn url evs /\ events w' = events w ++ evs
  end.
Proof.
  destruct n as [| n].
  { exists []. split; [constructor | symmetry; apply app_nil_r]. }
  rewrite ping_in_unfold.
  destruct (net w (sent w)) as [d response | d name].
  2:{ exists [EvGet url]. split; [constructor | apply events_after_get]. }
  destruct (status_code response =? 200)%Z eqn:E200.
  - destruct n as [| n].
    { exists [EvGet url]. split; [constructor | apply events_after_get]. }
    rewrite run_in_bind, run_in_trigger. cbv beta iota zeta delta [handle_in].
    destruct (loads L (text response)) as [data | exn].
    + destruct n as [| n].
      * exists [EvGet url; EvJson (text response)]. split; [constructor |].
        cbn [run_in observe _observe ITree.trigger].
        rewrite events_record, events_after_get, <- app_assoc. reflexivity.
      * rewrite run_in_trigger. cbv beta iota zeta delta [handle_in].
        destruct (write L data) as [exn |].
        -- exists [EvGet url; EvJson (text response)]. split; [constructor |].
           rewrite events_record, events_after_get, <- app_assoc. reflexivity.
        -- exists [EvGet url; EvJson (text response); EvPrint data].
           split; [constructor |].
           rewrite !events_record, events_after_get, <- !app_assoc. reflexivity.
    + exists [EvGet url; EvJson (text response)]. split; [constructor |].
      rewrite events_record, events_after_get, <- app_assoc. reflexivity.
  - destruct n as [| n].
    { exists [EvGet url]. split; [constructor | apply events_after_get]. }
    rewrite run_in_trigger. cbv beta iota zeta delta [handle_in].
    destruct (write L (PyStr (failure_message url (status_code response)))) as [exn |].
    + exists [EvGet url]. split; [constructor | apply events_after_get].
    + exists [EvGet url; EvPrint (PyStr (failure_message url (status_code response)))].
      split; [constructor; apply Z.eqb_neq, E200 |].
      rewrite events_record, events_after_get, <- app_assoc. reflexivity.
Qed.

(** What a turn has come to, however it ended: a turn that returned has
    printed the line of its reply; a turn that raised has printed
    nothing, and the exception is the one its reply comes to; a turn
    still running has printed nothing yet. *)
Lemma ping_in_outcome (n : nat) (url : string) (w : World) :
  match run_in L n (ping url) w with
  | Done _ w' _ =>
      exists line,
        line_of L url (net w (sent w)) = inl line /\
        printed w' = printed w ++ [line] /\
        sent w' = S (sent w) /\ net w' = net w
  | Raised exn w' =>
      line_of L url (net w (sent w)) = inr exn /\
      printed w' = printed w /\
      sent w' = S (sent w) /\ net w' = net w
  | Running w' => printed w' = printed w /\ net w' = net w
  end.
Proof.
  destruct n as [| n]; [split; reflexivity |].
  rewrite ping_in_unfold. unfold line_of.
  destruct (net w (sent w)) as [d response | d name] eqn:En.
  2:{ rewrite printed_after_get. repeat split. }
  destruct (status_code response =? 200)%Z.
  - destruct n as [| n].
    { rewrite run_in_bind, run_in_trigger_0, printed_after_get. split; reflexivity. }
    rewrite run_in_bind, run_in_trigger. cbv beta iota zeta delta [handle_in].
    destruct (loads L (text response)) as [data | exn].
    + destruct n as [| n].
      { rewrite run_in_trigger_0, printed_record_json, printed_after_get.
        split; reflexivity. }
      rewrite run_in_trigger. cbv beta iota zeta delta [handle_in].
      destruct (write L data) as [exn |].
      * rewrite printed_record_json, printed_after_get. repeat split.
      * exists data. rewrite printed_record_print, printed_record_json, printed_after_get.
        repeat split.
    + rewrite printed_record_json, printed_after_get. repeat split.
  - destruct n as [| n].
    { rewrite run_in_trigger_0, printed_after_get. split; reflexivity. }
    rewrite run_in_trigger. cbv beta iota zeta delta [handle_in].
    destruct (write L (PyStr (failure_message url (status_code response)))) as [exn |].
    + rewrite printed_after_get. repeat split.
    + eexists. rewrite printed_record_print, printed_after_get. repeat split.
Qed.

(** A turn whose reply comes to a line returns, in two calls or three;
    one whose reply comes to an exception raises it, in three calls at
    most. *)
Lemma ping_in_ends (url : string) (w : World) :
  exists c w',
    1 <= c <= 3 /\
    forall n,
      run_in L (c + n) (ping url) w =
      match line_of L url (net w (sent w)) with
      | inl _ => Done tt w' n
      | inr exn => Raised exn w'
      end.
Proof.
  unfold line_of.
  destruct (net w (sent w)) as [d response | d name] eqn:En.
  2:{ exists 1. eexists. split; [lia |]. intros n. cbn [Nat.add].
      rewrite ping_in_unfold, En. reflexivity. }
  destruct (status_code response =? 200)%Z eqn:E200.
  - destruct (loads L (text response)) as [data | exn] eqn:Ej.
    + destruct (write L data) as [exn |] eqn:Ew.
      * exists 3. eexists. split; [lia |]. intros n. cbn [Nat.add].
        rewrite ping_in_unfold, En, E200, (decode_print_in n response), Ej, Ew.
        reflexivity.
      * exists 3. eexists. split; [lia |]. intros n. cbn [Nat.add].
        rewrite ping_in_unfold, En, E200, (decode_print_in n response), Ej, Ew.
        reflexivity.
    + exists 3. eexists. split; [lia |]. intros n. cbn [Nat.add].
      rewrite ping_in_unfold, En, E200, (decode_print_in n response), Ej.
      reflexivity.
  - destruct (write L (PyStr (failure_message url (status_code response))))
      as [exn |] eqn:Ew.
    + exists 2. eexists. split; [lia |]. intros n. cbn [Nat.add].
      rewrite ping_in_unfold, En, E200, run_in_trigger.
      cbv beta iota zeta delta [handle_in]. rewrite Ew. reflexivity.
    + exists 2. eexists. split; [lia |]. intros n. cbn [Nat.add].
      rewrite ping_in_unfold, En, E200, run_in_trigger.
      cbv beta iota zeta delta [handle_in]. rewrite Ew. reflexivity.
Qed.

(** *** One pass over the list *)

Lemma for_each_in_cons (n : nat) (url : string) (us : list string) (w : World) :
  run_in L n (for_each (url :: us) ping) w =
  match run_in L n (ping url) w with
  | Done _ w' spare => run_in L spare (for_each us ping) w'
  | Raised exn w' => Raised exn w'
  | Running w' => Running w'
  end.
Proof. cbn [for_each]. apply run_in_bind. Qed.

Lemma sweep_in_shape (us : list string) (n : nat) (w : World) :
  match run_in L n (for_each us ping) w with
  | Done _ w' _ =>
      exists turns, Forall2 turn us turns /\ events w' = events w ++ List.concat turns
  | Raised _ w' => exists evs, stopped_in us evs /\ events w' = events w ++ evs
  | Running w' => exists evs, stopped_in us evs /\ events w' = events w ++ evs
  end.
Proof.
  revert n w. induction us as [| url us IH]; intros n w.
  - cbn [for_each]. rewrite run_in_ret. exists []. split; [constructor |].
    symmetry. apply app_nil_r.
  - rewrite for_each_in_cons.
    pose proof (ping_in_shape n url w) as P.
    destruct (run_in L n (ping url) w) as [[] w1 spare | exn w1 | w1].
    + destruct P as (evs & T & E1).
      specialize (IH spare w1).
      destruct (run_in L spare (for_each us ping) w1) as [[] w2 spare2 | exn w2 | w2].
      * destruct IH as (turns & F & E2). exists (evs :: turns).
        split; [constructor; assumption |].
        rewrite E2, E1, <- app_assoc. reflexivity.
      * destruct IH as (evs2 & (us1 & u & us2 & turns & part & -> & F & Pt & ->) & E2).
        exists (evs ++ List.concat turns ++ part). split.
        -- exists (url :: us1), u, us2, (evs :: turns), part.
           repeat split; try assumption; [constructor; assumption |].
           cbn [List.concat]. rewrite <- app_assoc. reflexivity.
        -- rewrite E2, E1, <- app_assoc. reflexivity.
      * destruct IH as (evs2 & (us1 & u & us2 & turns & part & -> & F & Pt & ->) & E2).
        exists (evs ++ List.concat turns ++ part). split.
        -- exists (url :: us1), u, us2, (evs :: turns), part.
           repeat split; try assumption; [constructor; assumption |].
           cbn [List.concat]. rewrite <- app_assoc. reflexivity.
        -- rewrite E2, E1, <- app_assoc. reflexivity.
    + destruct P as (evs & T & E1). exists evs. split; [| exact E1].
      exists [], url, us, [], evs. repeat split; [constructor | assumption].
    + destruct P as (evs & T & E1). exists evs. split; [| exact E1].
      exists [], url, us, [], evs. repeat split; [constructor | assumption].
Qed.

(** The lines of a pass, however it ended.  The line at [i] is the one
    the reply to the [i]-th request of the pass comes to, for the URL at
    [i]; a pass that returned has a line for every URL; a pass that
    raised did so in the turn after its last line, with the exception
    the reply of that turn comes to. *)
Lemma pass_in_outcome (us : list string) (n : nat) (w : World) :
  exists lines,
    printed (world_of (run_in L n (for_each us ping) w)) = printed w ++ lines /\
    net (world_of (run_in L n (for_each us ping) w)) = net w /\
    (forall i line,
        nth_error lines i = Some line ->
        exists url, nth_error us i = Some url /\
                    line_of L url (net w (sent w + i)) = inl line) /\
    match run_in L n (for_each us ping) w with
    | Done _ w' _ =>
        List.length lines = List.length us /\ sent w' = sent w + List.length us
    | Raised exn w' =>
        (exists url, nth_error us (List.length lines) = Some url /\
                     line_of L url (net w (sent w + List.length lines)) = inr exn) /\
        sent w' = sent w + S (List.length lines)
    | Running _ => True
    end.
Proof.
  revert n w. induction us as [| url us IH]; intros n w.
  - cbn [for_each]. rewrite run_in_ret. exists []. cbn [world_of].
    rewrite app_nil_r. repeat split; [| cbn; lia].
    intros [| i] line; discriminate.
  - rewrite for_each_in_cons.
    pose proof (ping_in_outcome n url w) as P.
    destruct (run_in L n (ping url) w) as [[] w1 spare | exn w1 | w1].
    + destruct P as (line0 & Hl & Hp & Hs & Hn).
      destruct (IH spare w1) as (lines & Hp1 & Hn1 & Hi & Ho).
      exists (line0 :: lines). split; [| split; [| split]].
      * rewrite Hp1, Hp, <- app_assoc. reflexivity.
      * rewrite Hn1. exact Hn.
      * intros [| i] line Hnth; cbn [nth_error] in Hnth.
        -- injection Hnth as <-. exists url. rewrite Nat.add_0_r. auto.
        -- destruct (Hi i line Hnth) as (u & Hu & Hlu).
           exists u. split; [exact Hu |].
           rewrite Hn, Hs in Hlu. rewrite Nat.add_succ_r. exact Hlu.
      * destruct (run_in L spare (for_each us ping) w1) as [[] w2 sp2 | exn w2 | w2].
        -- destruct Ho as (Hlen & Hs2). cbn [List.length]. split; lia.
        -- destruct Ho as ((u & Hu & Hlu) & Hs2). cbn [List.length nth_error]. split.
           ++ exists u. split; [exact Hu |].
              rewrite Hn, Hs in Hlu. rewrite Nat.add_succ_r. exact Hlu.
           ++ lia.
        -- exact I.
    + destruct P as (Hl & Hp & Hs & Hn).
      exists []. cbn [world_of List.length nth_error]. rewrite app_nil_r.
      split; [exact Hp | split; [exact Hn | split]].
      * intros [| i] line; discriminate.
      * split; [| lia]. exists url. rewrite Nat.add_0_r. auto.
    + destruct P as (Hp & Hn).
      exists []. cbn [world_of]. rewrite app_nil_r.
      split; [exact Hp | split; [exact Hn | split; [| exact I]]].
      intros [| i] line; discriminate.
Qed.

(** A pass ends, in three calls for each URL at most: it returns when
    every reply comes to a line, and raises the first exception a reply
    comes to otherwise, having printed the lines before it. *)
Lemma pass_in_ends (us : list string) (w : World) :
  exists n w',
    n <= 3 * List.length us /\
    printed w' = printed w ++ fst (pass_result L us (net w) (sent w)) /\
    forall k,
      run_in L (n + k) (for_each us ping) w =
      match snd (pass_result L us (net w) (sent w)) with
      | None => Done tt w' k
      | Some exn => Raised exn w'
      end.
Proof.
  revert w. induction us as [| url us IH]; intros w.
  - exists 0, w. cbn [pass_result fst snd for_each]. rewrite app_nil_r.
    split; [cbn; lia | split; [reflexivity |]].
    intros k. apply run_in_ret.
  - destruct (ping_in_ends url w) as (c & w1 & Hc & Hrun).
    pose proof (ping_in_outcome (c + 0) url w) as P. rewrite Hrun in P.
    cbn [pass_result].
    destruct (line_of L url (net w (sent w))) as [line | exn] eqn:El.
    + destruct P as (line' & [= <-] & Hp & Hs & Hn).
      destruct (IH w1) as (n & w2 & Hle & Hp2 & Hrun2).
      rewrite Hn, Hs in Hp2, Hrun2.
      destruct (pass_result L us (net w) (S (sent w))) as [lines exn].
      cbn [fst snd] in *.
      exists (c + n), w2. split; [cbn [List.length]; lia | split].
      * rewrite Hp2, Hp, <- app_assoc. reflexivity.
      * intros k. rewrite <- Nat.add_assoc, for_each_in_cons, Hrun. apply Hrun2.
    + destruct P as (_ & Hp & _).
      exists c, w1. cbn [fst snd]. rewrite app_nil_r.
      split; [cbn [List.length]; lia | split; [exact Hp |]].
      intros k. rewrite for_each_in_cons, Hrun. reflexivity.
Qed.

(** *** Sequencing, again *)

(** After a finished turn of [while], the loop runs again. *)
Lemma poller_in_next_cycle (us : list string) (n k : nat) (w w1 : World) :
  run_in L n (cycle_over us) w = Done tt w1 0 ->
  run_in L (n + 1 + k) (poller us) w = run_in L k (poller us) w1.
Proof.
  intros H. unfold poller at 1.
  rewrite run_in_forever.
  replace (n + 1 + k) with (n + S k) by lia.
  rewrite (run_in_done_more _ _ _ _ _ _ H (S k)). reflexivity.
Qed.

Lemma poller_in_after_cycles (us : list string) (n : nat) (w w' : World) :
  cycles_in L us n w w' ->
  exists k, forall fuel, run_in L (k + fuel) (poller us) w = run_in L fuel (poller us) w'.
Proof.
  induction 1 as [w | n k w w1 w2 C _ (k' & IH)].
  - exists 0. reflexivity.
  - exists (k + 1 + k'). intros fuel.
    replace (k + 1 + k' + fuel) with (k + 1 + (k' + fuel)) by lia.
    rewrite (poller_in_next_cycle _ _ _ _ _ C). apply IH.
Qed.

(** *** The first call of the loop *)

Lemma ping_in_first_step (url : string) (w : World) :
  world_of (run_in L 1 (ping url) w) = after_get url w /\
  unreturned (run_in L 1 (ping url) w).
Proof.
  rewrite ping_in_unfold.
  destruct (net w (sent w)) as [d response | d name]; [| split; [reflexivity | exact I]].
  destruct (status_code response =? 200)%Z; split; try reflexivity; exact I.
Qed.

Lemma poller_in_first_step (url : string) (us : list string) (w : World) :
  world_of (run_in L 1 (poller (url :: us)) w) = after_get url w.
Proof.
  unfold poller, cycle_over. rewrite run_in_forever, run_in_bind, for_each_in_cons.
  destruct (ping_in_first_step url w) as (E & U).
  destruct (run_in L 1 (ping url) w) as [r w1 sp | exn w1 | w1]; [destruct U | |];
    exact E.
Qed.

(** Whatever the fuel, the first call of the loop is the request for the
    first URL, stamped with the time the loop was entered. *)
Lemma poller_in_first_call (url : string) (us : list string) (k : nat) (w : World) :
  exists es,
    log (world_of (run_in L (S k) (poller (url :: us)) w)) =
    log w ++ (now w, EvGet url) :: es.
Proof.
  destruct (run_in_fuel_grows 1 k (poller (url :: us)) w) as (es & Lg & _).
  exists es. cbn [Nat.add] in Lg. rewrite Lg, poller_in_first_step, log_after_get.
  rewrite <- app_assoc. reflexivity.
Qed.

(** *** Libraries and a network that make nothing raise *)

Lemma ping_in_unraised (us : list string) (n : nat) (url : string) (w : World) :
  unfailing L us (net w) -> In url us -> unraised (run_in L n (ping url) w).
Proof.
  intros H Hin. pose proof (ping_in_outcome n url w) as P.
  destruct (run_in L n (ping url) w) as [r w1 sp | exn w1 | w1]; try exact I.
  destruct P as (Hl & _). destruct (H (sent w) url Hin) as (line & El). congruence.
Qed.

Lemma sweep_in_unraised (us l : list string) (n : nat) (w : World) :
  unfailing L us (net w) -> incl l us -> unraised (run_in L n (for_each l ping) w).
Proof.
  revert n w. induction l as [| url l IH]; intros n w H Hin.
  - cbn [for_each]. rewrite run_in_ret. exact I.
  - rewrite for_each_in_cons.
    pose proof (ping_in_unraised us n url w H (Hin url (in_eq url l))) as P.
    pose proof (ping_in_outcome n url w) as K.
    destruct (run_in L n (ping url) w) as [[] w1 spare | exn w1 | w1]; try assumption.
    destruct K as (_ & _ & _ & _ & Hn).
    apply IH; [rewrite Hn; exact H |].
    intros u Hu. apply Hin. right. exact Hu.
Qed.

Lemma cycle_in_unraised (us : list string) (n : nat) (w : World) :
  unfailing L us (net w) -> unraised (run_in L n (cycle_over us) w).
Proof.
  intros H. unfold cycle_over. rewrite run_in_bind.
  pose proof (sweep_in_unraised us us n w H (incl_refl us)) as P.
  destruct (run_in L n (for_each us ping) w) as [[] w1 spare | exn w1 | w1]; try assumption.
  destruct spare as [| spare]; [exact I |].
  rewrite run_in_trigger. exact I.
Qed.

Lemma forever_in_keeps_running {T : Type} (us : list string) (n : nat) (w : World) :
  unfailing L us (net w) ->
  exists w', run_in L n (ITree.forever (cycle_over us) : itree pingE T) w = Running w'.
Proof.
  revert w. induction n as [n IH] using lt_wf_ind. intros w H.
  rewrite run_in_forever.
  pose proof (cycle_in_unraised us n w H) as P.
  destruct (run_in_grows n (cycle_over us) w) as (es & _ & K & _).
  destruct (run_in L n (cycle_over us) w) as [[] w1 spare | exn w1 | w1] eqn:E.
  - destruct spare as [| spare]; [eexists; reflexivity |].
    destruct (run_in_done_exact _ _ _ _ _ _ E) as (m & -> & _).
    apply IH; [lia |]. cbn [world_of] in K. rewrite K. exact H.
  - destruct P.
  - eexists. reflexivity.
Qed.

(** *** A loop without [break] does not return *)

Lemma forever_in_unreturned {R T : Type} (t : itree pingE R) (n : nat) (w : World) :
  unreturned (run_in L n (ITree.forever t : itree pingE T) w).
Proof.
  revert w. induction n as [n IH] using lt_wf_ind. intros w.
  rewrite run_in_forever.
  destruct (run_in L n t w) as [r w1 spare | exn w1 | w1] eqn:E; try exact I.
  destruct spare as [| spare]; [exact I |].
  destruct (run_in_done_exact _ _ _ _ _ _ E) as (m & -> & _).
  apply IH. lia.
Qed.

(** *** Steps of the transition system are steps of the runner *)

Lemma steps_in_run {T : Type} (n : nat) (c c' : config T) :
  steps_in L n c c' ->
  forall fuel, run_in L (n + fuel) (fst c) (snd c) = run_in L fuel (fst c') (snd c').
Proof.
  induction 1 as [c | n c1 c2 c3 S1 _ IH]; intros fuel; [reflexivity |].
  rewrite <- IH. destruct S1 as [t t' w E | X e k t x w w' E Eh]; cbn [fst snd Nat.add].
  - rewrite (run_in_unfold (S (n + fuel)) t), E. reflexivity.
  - rewrite (run_in_unfold (S (n + fuel)) t), E, Eh. reflexivity.
Qed.

(** A state is about to jump, to make a call that answers, to make a call
    that raises, or to return. *)
Lemma step_in_crash_or_return {T : Type} (c : config T) :
  (exists c', step_in L c c') \/
  (exists exn w', crashes_in L c exn w') \/
  (exists r, observe (fst c) = RetF r).
Proof.
  destruct c as [t w]. cbn [fst].
  destruct (observe t) as [r | t' | X e k] eqn:E.
  - right. right. exists r. reflexivity.
  - left. exists (t', w). apply step_in_jump, E.
  - destruct (handle_in L e w) as [[x | exn] w'] eqn:Eh.
    + left. exists (k x, w'). eapply step_in_call; eassumption.
    + right. left. exists exn, w'. eapply crash_in_call; eassumption.
Qed.

Lemma crash_in_run {T : Type} (c : config T) (exn : pyexn) (w' : World) :
  crashes_in L c exn w' ->
  run_in L 1 (fst c) (snd c) = Raised exn w'.
Proof.
  intros [X e k t exn' w w'' E Eh]. cbn [fst snd].
  rewrite run_in_unfold, E, Eh. reflexivity.
Qed.

(** A state that can take a step is not one that is about to die. *)
Lemma step_in_run {T : Type} (c c' : config T) :
  step_in L c c' -> unraised (run_in L 1 (fst c) (snd c)).
Proof.
  intros [t t' w E | X e k t x w w' E Eh]; cbn [fst snd].
  - rewrite run_in_unfold, E, run_in_unfold. destruct (observe t'); exact I.
  - rewrite run_in_unfold, E, Eh, run_in_unfold. destruct (observe (k x)); exact I.
Qed.

(** No state the loop reaches is one in which the program is over. *)
Lemma reachable_in_step_or_crash {T : Type} (us : list string) (w : World)
      (c : config T) :
  reachable_in L us w c ->
  (exists c', step_in L c c') \/
  (exists exn w', crashes_in L c exn w').
Proof.
  intros (n & St).
  destruct (step_in_crash_or_return c) as [S1 | [Cr | (r & E)]]; auto.
  exfalso.
  pose proof (steps_in_run n _ _ St 0) as H. cbn [fst snd] in H.
  pose proof (forever_in_unreturned (T := T) (cycle_over us) (n + 0) w) as U.
  rewrite H, run_in_unfold, E in U. exact U.
Qed.

(** *** Turns of the [while] loop *)

Lemma cycle_in_shape (us : list string) (n : nat) (w w' : World) (spare : nat) :
  run_in L n (cycle_over us) w = Done tt w' spare ->
  exists turns,
    Forall2 turn us turns /\
    events w' = events w ++ List.concat turns ++ [EvSleep 240].
Proof.
  unfold cycle_over. rewrite run_in_bind. intros H.
  pose proof (sweep_in_shape us n w) as P.
  destruct (run_in L n (for_each us ping) w)
    as [[] w1 spare1 | exn w1 | w1]; try discriminate.
  destruct P as (turns & F & E).
  destruct spare1 as [| spare1]; [discriminate |].
  rewrite run_in_trigger in H. cbv beta iota zeta delta [handle_in] in H.
  injection H as <- _.
  exists turns. split; [exact F |].
  rewrite events_elapse, events_record, E, <- app_assoc. reflexivity.
Qed.

(** The calls of a turn of [while], however it ended: those of a
    finished turn of [for] for each URL, with or without the sleep after
    them, or those of the turns of the first URLs and of a turn that
    stopped short. *)
Lemma cycle_in_calls (us : list string) (n : nat) (w : World) :
  exists evs,
    events (world_of (run_in L n (cycle_over us) w)) = events w ++ evs /\
    ((exists turns,
         Forall2 turn us turns /\
         (evs = List.concat turns \/ evs = cycle_calls turns)) \/
     stopped_in us evs).
Proof.
  unfold cycle_over. rewrite run_in_bind.
  pose proof (sweep_in_shape us n w) as P.
  destruct (run_in L n (for_each us ping) w) as [[] w1 spare | exn w1 | w1].
  - destruct P as (turns & F & E).
    destruct spare as [| spare].
    + exists (List.concat turns). split; [exact E |].
      left. exists turns. auto.
    + rewrite run_in_trigger. cbv beta iota zeta delta [handle_in]. cbn [world_of].
      exists (cycle_calls turns). split.
      * unfold cycle_calls.
        rewrite events_elapse, events_record, E, <- app_assoc. reflexivity.
      * left. exists turns. auto.
  - destruct P as (evs & St & E). exists evs. auto.
  - destruct P as (evs & St & E). exists evs. auto.
Qed.

Lemma cycles_in_shape (us : list string) (N : nat) (w wN : World) :
  cycles_in L us N w wN ->
  exists cycles,
    List.length cycles = N /\
    Forall (Forall2 turn us) cycles /\
    events wN = events w ++ List.concat (List.map cycle_calls cycles).
Proof.
  induction 1 as [w | n k w w1 w2 C _ (cycles & Lc & F & E)].
  - exists []. repeat split; [constructor | symmetry; apply app_nil_r].
  - destruct (cycle_in_shape us k w w1 0 C) as (turns & T & E1).
    exists (turns :: cycles). repeat split.
    + cbn. rewrite Lc. reflexivity.
    + constructor; assumption.
    + cbn [List.map List.concat]. unfold cycle_calls at 1.
      rewrite E, E1, <- !app_assoc. reflexivity.
Qed.

(** *** The lines of a run *)

(** The lines of a turn of [while], however it ended. *)
Lemma cycle_in_outcome (us : list string) (n : nat) (w : World) :
  exists lines,
    printed (world_of (run_in L n (cycle_over us) w)) = printed w ++ lines /\
    lines_from (line_at L us (net w) (sent w)) lines /\
    match run_in L n (cycle_over us) w with
    | Done _ w' _ =>
        List.length lines = List.length us /\
        sent w' = sent w + List.length us /\ net w' = net w
    | Raised exn w' =>
        line_at L us (net w) (sent w) (List.length lines) = inr exn /\
        sent w' = sent w + S (List.length lines)
    | Running _ => True
    end.
Proof.
  unfold cycle_over. rewrite run_in_bind.
  destruct (pass_in_outcome us n w) as (lines & Hp & Hn & Hi & Ho).
  assert (At : forall i url, nth_error us i = Some url ->
                             List.nth (i mod List.length us) us EmptyString = url).
  { intros i url Hu.
    assert (Hlt : i < List.length us) by (apply nth_error_Some; congruence).
    rewrite Nat.mod_small by exact Hlt. apply nth_error_nth, Hu. }
  assert (Fr : lines_from (line_at L us (net w) (sent w)) lines).
  { intros i line Hnth. destruct (Hi i line Hnth) as (url & Hu & Hl).
    unfold line_at. rewrite (At i url Hu). exact Hl. }
  destruct (run_in L n (for_each us ping) w) as [[] w1 spare | exn w1 | w1];
    cbn [world_of] in Hp, Hn.
  - destruct Ho as (Hlen & Hs).
    destruct spare as [| spare].
    + exists lines. rewrite run_in_trigger_0. cbn [world_of]. auto.
    + rewrite run_in_trigger. cbv beta iota zeta delta [handle_in]. cbn [world_of].
      exists lines. split; [| split; [exact Fr |]].
      * unfold printed in *.
        rewrite events_elapse, events_record, printed_of_app. cbn [printed_of].
        rewrite app_nil_r. exact Hp.
      * cbn [elapse record sent net]. auto.
  - destruct Ho as ((url & Hu & Hl) & Hs).
    exists lines. cbn [world_of]. split; [exact Hp | split; [exact Fr |]].
    split; [| exact Hs]. unfold line_at. rewrite (At _ url Hu). exact Hl.
  - exists lines. cbn [world_of]. auto.
Qed.

(** Turns of [for] are numbered through the turns of [while]. *)
Lemma line_at_next_cycle (us : list string) (n : nat -> Reply) (s i : nat) :
  line_at L us n (s + List.length us) i = line_at L us n s (List.length us + i).
Proof.
  unfold line_at. f_equal.
  - f_equal. rewrite (Nat.add_comm (List.length us) i).
    rewrite <- (Nat.Div0.mod_add i 1 (List.length us)) at 1.
    rewrite Nat.mul_1_l. reflexivity.
  - f_equal. lia.
Qed.

Lemma lines_from_app (F : nat -> pyvalue + pyexn) (l1 l2 : list pyvalue) :
  lines_from F l1 ->
  lines_from (fun i => F (List.length l1 + i)) l2 ->
  lines_from F (l1 ++ l2).
Proof.
  intros H1 H2 i line Hnth.
  destruct (Nat.lt_ge_cases i (List.length l1)) as [Hlt | Hge].
  - rewrite nth_error_app1 in Hnth by exact Hlt. apply H1, Hnth.
  - rewrite nth_error_app2 in Hnth by exact Hge.
    specialize (H2 _ _ Hnth). cbn beta in H2.
    replace (List.length l1 + (i - List.length l1)) with i in H2 by lia. exact H2.
Qed.

(** Any run of the loop, of any length and from any world: the line at
    [i] is the one the [i]-th turn of [for] comes to, and a run that
    ends in an exception ends in the turn after its last line, with the
    exception that turn comes to. *)
Lemma poller_in_outcome (us : list string) (n : nat) (w : World) :
  exists lines,
    printed (world_of (run_in L n (poller us) w)) = printed w ++ lines /\
    lines_from (line_at L us (net w) (sent w)) lines /\
    forall exn w',
      run_in L n (poller us) w = Raised exn w' ->
      line_at L us (net w) (sent w) (List.length lines) = inr exn /\
      sent w' = sent w + S (List.length lines).
Proof.
  revert w. induction n as [n IH] using lt_wf_ind. intros w.
  unfold poller. rewrite run_in_forever.
  destruct (cycle_in_outcome us n w) as (lines & Hp & Fr & Ho).
  destruct (run_in L n (cycle_over us) w) as [[] w1 spare | exn w1 | w1] eqn:E;
    cbn [world_of] in Hp.
  - destruct Ho as (Hlen & Hs & Hn).
    destruct spare as [| spare].
    + exists lines. cbn [world_of]. split; [exact Hp | split; [exact Fr |]].
      intros exn w' [=].
    + destruct (run_in_done_exact _ _ _ _ _ _ E) as (m & -> & _).
      destruct (IH spare ltac:(lia) w1) as (lines2 & Hp2 & Fr2 & Hr2).
      fold (poller us).
      assert (Sh : forall i, line_at L us (net w1) (sent w1) i
                             = line_at L us (net w) (sent w) (List.length lines + i)).
      { intros i. rewrite Hn, Hs, Hlen. apply line_at_next_cycle. }
      exists (lines ++ lines2). split; [| split].
      * rewrite Hp2, Hp, <- app_assoc. reflexivity.
      * apply lines_from_app; [exact Fr |].
        intros i line Hnth. rewrite <- Sh. apply Fr2, Hnth.
      * intros exn w' Hr. destruct (Hr2 exn w' Hr) as (Hl & Hs').
        rewrite length_app, <- Sh. split; [exact Hl | lia].
  - exists lines. cbn [world_of]. split; [exact Hp | split; [exact Fr |]].
    intros exn' w' [= <- <-]. exact Ho.
  - exists lines. cbn [world_of]. split; [exact Hp | split; [exact Fr |]].
    intros exn w' [=].
Qed.

(** The lines of [N] finished turns of [while]. *)
Lemma cycles_in_lines (us : list string) (N : nat) (w wN : World) :
  cycles_in L us N w wN ->
  exists lines,
    printed wN = printed w ++ lines /\
    lines_from (line_at L us (net w) (sent w)) lines /\
    List.length lines = N * List.length us /\
    sent wN = sent w + N * List.length us /\
    net wN = net w.
Proof.
  induction 1 as [w | n k w w1 w2 C _ (lines2 & Hp2 & Fr2 & Hlen2 & Hs2 & Hn2)].
  - exists []. rewrite app_nil_r. repeat split; try (cbn; lia).
    intros [| i] line; discriminate.
  - destruct (cycle_in_outcome us k w) as (lines & Hp & Fr & Ho).
    rewrite C in Hp, Ho. cbn [world_of] in Hp. destruct Ho as (Hlen & Hs & Hn).
    exists (lines ++ lines2). split; [| split; [| split; [| split]]].
    + rewrite Hp2, Hp, <- app_assoc. reflexivity.
    + apply lines_from_app; [exact Fr |].
      intros i line Hnth. rewrite Hlen, <- line_at_next_cycle, <- Hs, <- Hn.
      apply Fr2, Hnth.
    + rewrite length_app, Hlen, Hlen2. cbn. lia.
    + rewrite Hs2, Hs. cbn. lia.
    + rewrite Hn2. exact Hn.
Qed.

End RunInFacts.

(** *** Lists of lines read off the same replies *)

(** Two lists of lines that both follow [F] agree as far as both go. *)
Lemma lines_from_comparable (F : nat -> pyvalue + pyexn) (l1 l2 : list pyvalue) :
  lines_from F l1 -> lines_from F l2 ->
  exists more, l2 = l1 ++ more \/ l1 = l2 ++ more.
Proof.
  revert F l2. induction l1 as [| a l1 IH]; intros F l2 H1 H2.
  - exists l2. left. reflexivity.
  - destruct l2 as [| b l2].
    + exists (a :: l1). right. reflexivity.
    + pose proof (H1 0 a eq_refl) as Ha. pose proof (H2 0 b eq_refl) as Hb.
      assert (a = b) by congruence. subst b.
      destruct (IH (fun i => F (S i)) l2) as (more & [-> | ->]).
      * intros i line Hnth. apply (H1 (S i)), Hnth.
      * intros i line Hnth. apply (H2 (S i)), Hnth.
      * exists more. left. reflexivity.
      * exists more. right. reflexivity.
Qed.

Lemma lines_from_same_length (F : nat -> pyvalue + pyexn) (l1 l2 : list pyvalue) :
  lines_from F l1 -> lines_from F l2 ->
  List.length l1 = List.length l2 -> l1 = l2.
Proof.
  intros H1 H2 Hlen.
  destruct (lines_from_comparable F l1 l2 H1 H2) as (more & [-> | ->]);
    rewrite length_app in Hlen; destruct more; cbn in Hlen; try lia;
    rewrite app_nil_r; reflexivity.
Qed.

(** Two lists of lines that follow [F], each up to a turn that comes to
    an exception, are the same list, and the exception is the same. *)
Lemma lines_from_same_end (F : nat -> pyvalue + pyexn) (l1 l2 : list pyvalue)
      (e1 e2 : pyexn) :
  lines_from F l1 -> lines_from F l2 ->
  F (List.length l1) = inr e1 -> F (List.length l2) = inr e2 ->
  l1 = l2 /\ e1 = e2.
Proof.
  intros H1 H2 E1 E2.
  assert (Hlen : List.length l1 = List.length l2).
  { destruct (lines_from_comparable F l1 l2 H1 H2) as (more & [-> | ->]);
      destruct more as [| x more]; rewrite ?app_nil_r; try reflexivity; exfalso.
    - assert (Hx : F (List.length l1) = inl x).
      { apply H2. rewrite nth_error_app2 by lia. rewrite Nat.sub_diag. reflexivity. }
      congruence.
    - assert (Hx : F (List.length l2) = inl x).
      { apply H1. rewrite nth_error_app2 by lia. rewrite Nat.sub_diag. reflexivity. }
      congruence. }
  split; [apply (lines_from_same_length F); assumption |].
  rewrite Hlen in E1. congruence.
Qed.

(** What a turn comes to depends on the response only. *)
Lemma line_of_same (L : Libs) (url : string) (a b : Reply) :
  same_reply a b -> line_of L url a = line_of L url b.
Proof.
  destruct a as [d1 r1 | d1 n1], b as [d2 r2 | d2 n2]; cbn; try contradiction.
  - intros ->. reflexivity.
  - intros ->. reflexivity.
Qed.

Lemma line_at_same (L : Libs) (us : list string) (n1 n2 : nat -> Reply) (s i : nat) :
  same_responses n1 n2 -> line_at L us n1 s i = line_at L us n2 s i.
Proof. intros H. unfold line_at. apply line_of_same, H. Qed.

(* ===================================================================== *)
(** ** The status dispatch of one turn *)
(* ===================================================================== *)

Lemma after_get_answer (url : string) (w : World) (d : N) (response : Response) :
  net w (sent w) = Answer d response ->
  after_get url w =
  mkWorld (net w) (S (sent w)) (now w + d) (log w ++ [(now w, EvGet url)]).
Proof. intros H. unfold after_get. rewrite H. reflexivity. Qed.

Lemma after_get_broken (url : string) (w : World) (d : N) (name : string) :
  net w (sent w) = Broken d name ->
  after_get url w =
  mkWorld (net w) (S (sent w)) (now w + d) (log w ++ [(now w, EvGet url)]).
Proof. intros H. unfold after_get. rewrite H. reflexivity. Qed.

Lemma record_mk (ev : event) (n : nat -> Reply) (k : nat) (t : N)
      (l : list (N * event)) :
  record ev (mkWorld n k t l) = mkWorld n k t (l ++ [(t, ev)]).
Proof. reflexivity. Qed.

Lemma py_str_int_404 : py_str_int 404 = "404"%string.
Proof. reflexivity. Qed.

(** The decimal text of a status code reads back as that code. *)
Lemma py_str_int_reads_back (code : Z) :
  option_map Z.of_int (NilZero.int_of_string (py_str_int code)) = Some code.
Proof.
  unfold py_str_int.
  destruct code as [| p | p].
  - reflexivity.
  - rewrite NilZero.isi.
    + cbn [option_map]. f_equal. apply (DecimalZ.of_to (Z.pos p)).
    + cbn. intros [= H]. revert H. apply DecimalPos.Unsigned.to_uint_nonnil.
    + discriminate.
  - rewrite NilZero.isi.
    + cbn [option_map]. f_equal. apply (DecimalZ.of_to (Z.neg p)).
    + discriminate.
    + cbn. intros [= H]. revert H. apply DecimalPos.Unsigned.to_uint_nonnil.
Qed.

(** C1, as the code has it.  When the reply to the request for [url] has
    status 200 and the decoder reads its body as [data], the turn makes
    the request, has the body decoded and hands [data] itself to
    [print].  If [print] writes it, [data] is the line of that URL and
    the turn returns; if [print] raises on it, the turn ends in that
    exception with nothing printed.  This for any URL, any libraries and
    any state of the process.  With the reference decoder and a console
    in UTF-8, the body [{"rank": 5}] prints the dict with the one item
    ["rank"], 5. *)
Theorem ping_200_prints_decoded_json :
  forall (url : string) (w : World) (d : N) (n : nat),
    (forall (L : Libs) (response : Response) (data : pyvalue),
        net w (sent w) = Answer d response ->
        status_code response = 200%Z ->
        loads L (text response) = inl data ->
        let w2 :=
          mkWorld (net w) (S (sent w)) (now w + d)
            (log w ++ [(now w, EvGet url);
                       ((now w + d)%N, EvJson (text response))]) in
        (write L data = None ->
         run_in L (3 + n) (ping url) w =
         Done tt
              (mkWorld (net w) (S (sent w)) (now w + d)
                 (log w ++ [(now w, EvGet url);
                            ((now w + d)%N, EvJson (text response));
                            ((now w + d)%N, EvPrint data)]))
              n) /\
        (forall exn,
            write L data = Some exn ->
            run_in L (3 + n) (ping url) w = Raised exn w2 /\
            printed w2 = printed w))
    /\
    (net w (sent w) = Answer d (mkResponse 200 rank5_body) ->
     run_in python (3 + n) (ping url) w =
     Done tt
          (mkWorld (net w) (S (sent w)) (now w + d)
             (log w ++ [(now w, EvGet url);
                        ((now w + d)%N, EvJson rank5_body);
                        ((now w + d)%N,
                         EvPrint (PyDict [("rank"%string, PyInt 5)]))]))
          n).
Proof.
  intros url w d n.
  assert (G : forall (L : Libs) response data,
             net w (sent w) = Answer d response ->
             status_code response = 200%Z ->
             loads L (text response) = inl data ->
             write L data = None ->
             run_in L (3 + n) (ping url) w =
             Done tt
                  (mkWorld (net w) (S (sent w)) (now w + d)
                     (log w ++ [(now w, EvGet url);
                                ((now w + d)%N, EvJson (text response));
                                ((now w + d)%N, EvPrint data)]))
                  n).
  { intros L response data H H200 Hj Hw.
    rewrite (ping_in_decoded L n url w d response data H H200 Hj Hw).
    rewrite (after_get_answer url w d response H), !record_mk, <- !app_assoc.
    reflexivity. }
  split.
  - intros L response data H H200 Hj w2. split; [apply G; assumption |].
    intros exn Hw. split.
    + rewrite (ping_in_unprinted L n url w d response data exn H H200 Hj Hw).
      rewrite (after_get_answer url w d response H), record_mk, <- app_assoc.
      reflexivity.
    + unfold printed, events, w2. cbn [log]. rewrite map_app, printed_of_app.
      apply app_nil_r.
  - intros H. apply (G python (mkResponse 200 rank5_body) _ H eq_refl).
    + vm_compute. reflexivity.
    + reflexivity.
Qed.

Lemma ping_200_prints_decoded_json_witness :
  run_in python 3 (ping "https://f0rest-rank-api.glitch.me/getRank/f0rest")
         (boot (fun _ => Answer 2 (mkResponse 200 rank5_body))) =
  Done tt
       (mkWorld (fun _ => Answer 2 (mkResponse 200 rank5_body)) 1 2
          [(0%N, EvGet "https://f0rest-rank-api.glitch.me/getRank/f0rest");
           (2%N, EvJson rank5_body);
           (2%N, EvPrint (PyDict [("rank"%string, PyInt 5)]))])
       0.
Proof.
  apply (proj2 (ping_200_prints_decoded_json
                  "https://f0rest-rank-api.glitch.me/getRank/f0rest"
                  (boot (fun _ => Answer 2 (mkResponse 200 rank5_body))) 2 0)).
  reflexivity.
Defined.

(** C1, as the claim has it, fails: a 200 whose body is the JSON string
    ["\ud800"] decodes, to a string of one lone surrogate, and on a
    console in UTF-8 [print] raises on that string: the turn has made
    the request and had the body decoded, no line is printed for the
    URL, and the process is over. *)
Lemma lone_surrogate_is_not_printed :
  loads python surrogate_body = inl (PyStr lone_surrogate) /\
  run_in python 3 (ping "https://f0rest-rank-api.glitch.me/getRank/olofmeister")
         (boot net_surrogate)
  = Raised (OtherError "UnicodeEncodeError") surrogate_crashed /\
  run_in python 100 main (boot net_surrogate)
  = Raised (OtherError "UnicodeEncodeError") surrogate_crashed /\
  printed surrogate_crashed = [].
Proof.
  repeat split; vm_compute; reflexivity.
Qed.

(** C2.  When the reply to the request for [url] has any status other
    than 200, the turn makes two calls, the request and one print: the
    decoder is not called, and the line printed is
    [Failed to retrieve data from {url}. Status code: {code}] with the
    URL as it is and the code in decimal. *)
Theorem ping_non200_prints_failure :
  forall (json_loads : string -> option pyvalue) (url : string) (w : World)
         (d : N) (response : Response) (n : nat),
    net w (sent w) = Answer d response ->
    status_code response <> 200%Z ->
    let line :=
      ("Failed to retrieve data from " ++ url ++ ". Status code: "
         ++ py_str_int (status_code response))%string in
    let w' :=
      mkWorld (net w) (S (sent w)) (now w + d)
        (log w ++ [(now w, EvGet url); ((now w + d)%N, EvPrint (PyStr line))]) in
    run json_loads (2 + n) (ping url) w = Done tt w' n /\
    decoded_of (events w') = decoded_of (events w) /\
    printed w' = printed w ++ [PyStr line] /\
    option_map Z.of_int (NilZero.int_of_string (py_str_int (status_code response)))
    = Some (status_code response).
Proof.
  intros json_loads url w d response n H H200 line w'.
  split; [| split; [| split]].
  - rewrite (ping_failed json_loads n url w d response H H200).
    rewrite (after_get_answer url w d response H), record_mk, <- app_assoc.
    reflexivity.
  - unfold events, w'. cbn [log]. rewrite map_app, decoded_of_app.
    apply app_nil_r.
  - unfold printed, events, w'. cbn [log]. rewrite map_app, printed_of_app.
    reflexivity.
  - apply py_str_int_reads_back.
Qed.

Lemma ping_non200_prints_failure_witness :
  run JSON.loads 2 (ping "https://f0rest-rank-api.glitch.me/getRank/olofmeister")
      (boot (fun _ => Answer 1 (mkResponse 404 "<html>Not Found</html>"))) =
  Done tt
       (mkWorld (fun _ => Answer 1 (mkResponse 404 "<html>Not Found</html>")) 1 1
          [(0%N, EvGet "https://f0rest-rank-api.glitch.me/getRank/olofmeister");
           (1%N, EvPrint (PyStr "Failed to retrieve data from https://f0rest-rank-api.glitch.me/getRank/olofmeister. Status code: 404"))])
       0.
Proof.
  apply (ping_non200_prints_failure JSON.loads
           "https://f0rest-rank-api.glitch.me/getRank/olofmeister"
           (boot (fun _ => Answer 1 (mkResponse 404 "<html>Not Found</html>")))
           1 (mkResponse 404 "<html>Not Found</html>") 0).
  - reflexivity.
  - cbn. discriminate.
Defined.

(* ===================================================================== *)
(** ** One turn of the [while] loop *)
(* ===================================================================== *)

(** C3, as the code has it.  (1) Every turn of the [while] loop, whether
    it runs to its end or is cut short, by an exception or by the end of
    the run, has made the calls of one finished turn of [for] for each
    URL of a beginning of the list, in the order of the list, and then
    at most the first calls of the turn of the next URL: a request for a
    URL, then (after the decoding, for a 200) its print, and only then
    the request for the next URL.  So the URLs requested are a beginning
    of the list, in order, no URL is requested or printed for twice, and
    the lines printed are as many as the requests or one less.  (2) A
    turn of the loop that runs to its end has made one request and one
    print for each URL of the list, and then slept.  (3) The same holds
    of each of any number of turns of the loop that follow one
    another. *)
Theorem cycle_one_turn_per_url_in_order :
  forall (L : Libs) (us : list string),
    (forall (n : nat) (w : World),
        exists evs,
          events (world_of (run_in L n (cycle_over us) w)) = events w ++ evs /\
          ((exists turns,
               Forall2 turn us turns /\
               (evs = List.concat turns \/ evs = cycle_calls turns)) \/
           (exists us1 url us2 turns part,
               us = us1 ++ url :: us2 /\
               Forall2 turn us1 turns /\
               partial_turn url part /\
               evs = List.concat turns ++ part)) /\
          (exists post, us = requested_of evs ++ post) /\
          List.length (printed_of evs) <= List.length (requested_of evs) /\
          List.length (requested_of evs) <= S (List.length (printed_of evs))) /\
    (forall (n : nat) (w w' : World) (spare : nat),
        run_in L n (cycle_over us) w = Done tt w' spare ->
        exists turns,
          Forall2 turn us turns /\
          events w' = events w ++ List.concat turns ++ [EvSleep 240] /\
          requested_of (List.concat turns) = us /\
          List.length (printed_of (List.concat turns)) = List.length us) /\
    (forall (N : nat) (w wN : World),
        cycles_in L us N w wN ->
        exists cycles,
          List.length cycles = N /\
          Forall (Forall2 turn us) cycles /\
          events wN = events w ++ List.concat (List.map cycle_calls cycles)).
Proof.
  intros L us. split; [| split].
  - intros n w.
    destruct (cycle_in_calls L us n w) as (evs & E & Sh).
    exists evs. split; [exact E | split; [exact Sh |]].
    destruct Sh as [(turns & F & [-> | ->])
                   | (us1 & url & us2 & turns & part & -> & F & P & ->)].
    + rewrite (turns_requested us turns F), (turns_printed us turns F).
      split; [exists []; symmetry; apply app_nil_r | lia].
    + unfold cycle_calls.
      rewrite requested_of_app, printed_of_app, !length_app,
        (turns_requested us turns F), (turns_printed us turns F).
      cbn [requested_of printed_of List.length]. rewrite app_nil_r.
      split; [exists []; symmetry; apply app_nil_r | lia].
    + rewrite requested_of_app, printed_of_app, !length_app,
        (turns_requested us1 turns F), (turns_printed us1 turns F).
      destruct P; cbn [requested_of printed_of List.length]; (split; [| lia]).
      * exists (url :: us2). rewrite app_nil_r. reflexivity.
      * exists us2. rewrite <- app_assoc. reflexivity.
      * exists us2. rewrite <- app_assoc. reflexivity.
  - intros n w w' spare H.
    destruct (cycle_in_shape L us n w w' spare H) as (turns & F & E).
    exists turns. repeat split.
    + exact F.
    + exact E.
    + apply (turns_requested us turns F).
    + apply (turns_printed us turns F).
  - intros N w wN H. apply (cycles_in_shape L us N w wN H).
Qed.

Lemma cycle_one_turn_per_url_in_order_witness :
  (exists turns,
      Forall2 turn urls turns /\
      events scenario_cycle1 =
      events (boot scenario_net) ++ List.concat turns ++ [EvSleep 240] /\
      requested_of (List.concat turns) = urls /\
      List.length (printed_of (List.concat turns)) = List.length urls) /\
  (exists cycles,
      List.length cycles = 2 /\
      Forall (Forall2 turn urls) cycles /\
      events scenario_cycle2 =
      events (boot scenario_net) ++ List.concat (List.map cycle_calls cycles)).
Proof.
  split.
  - apply (proj1 (proj2 (cycle_one_turn_per_url_in_order python urls))
             6 (boot scenario_net) scenario_cycle1 0).
    vm_compute. reflexivity.
  - apply (proj2 (proj2 (cycle_one_turn_per_url_in_order python urls))
             2 (boot scenario_net) scenario_cycle2).
    apply (cycles_in_more python urls 1 6 (boot scenario_net) scenario_cycle1).
    { vm_compute. reflexivity. }
    apply (cycles_in_more python urls 0 6 scenario_cycle1 scenario_cycle2).
    { vm_compute. reflexivity. }
    apply cycles_in_none.
Defined.

(** C3, as the claim has it, fails: when the network is down the first
    turn of the loop ends in the first request, with one request made
    for two URLs, nothing printed and no sleep. *)
Lemma cycle_cut_short_by_exception :
  run JSON.loads 6 cycle (boot dead_net) =
  Raised (TransportError "ConnectionError")
         (mkWorld dead_net 1 3
            [(0%N, EvGet "https://f0rest-rank-api.glitch.me/getRank/olofmeister")]) /\
  requested (mkWorld dead_net 1 3
               [(0%N, EvGet "https://f0rest-rank-api.glitch.me/getRank/olofmeister")])
  <> urls /\
  List.length
    (printed (mkWorld dead_net 1 3
                [(0%N, EvGet "https://f0rest-rank-api.glitch.me/getRank/olofmeister")]))
  <> List.length urls.
Proof.
  split; [vm_compute; reflexivity |].
  split; vm_compute; discriminate.
Qed.

(** C4.  Once the last URL of the list has been dealt with, in a world
    [w1], the loop makes one call, a sleep of 240 logged at the time of
    [w1], and is back at its head with the clock 240 further and nothing
    else changed.  Everything it logs from there on is stamped at least
    240 after [w1], and the first thing it logs is the request for the
    first URL, stamped exactly 240 after [w1]. *)
Theorem sleep_240_between_cycles :
  forall (json_loads : string -> option pyvalue) (us : list string)
         (n : nat) (w w1 : World),
    completes_in json_loads n (for_each us ping) w w1 ->
    let w2 :=
      mkWorld (net w1) (sent w1) (now w1 + 240)
        (log w1 ++ [(now w1, EvSleep 240)]) in
    (forall k, run json_loads (n + 2 + k) (poller us) w
               = run json_loads k (poller us) w2) /\
    (forall k, exists es,
        log (world_of (run json_loads k (poller us) w2)) = log w2 ++ es /\
        Forall (fun p => (now w1 + 240 <= fst p)%N) es) /\
    (forall k url us', us = url :: us' ->
       exists es,
         log (world_of (run json_loads (S k) (poller us) w2)) =
         log w2 ++ ((now w1 + 240)%N, EvGet url) :: es).
Proof.
  intros json_loads us n w w1 H w2.
  split; [| split].
  - intros k.
    replace (n + 2 + k) with (n + 1 + 1 + k) by lia.
    apply (poller_next_cycle json_loads us (n + 1) k w w2).
    apply (cycle_completes json_loads us n w w1 H).
  - intros k.
    destruct (run_grows json_loads k (poller us) w2) as (es & L & _ & _ & _ & F).
    exists es. split; [exact L |].
    eapply Forall_impl; [| exact F]. cbn. intros p Hp. lia.
  - intros k url us' ->.
    apply (poller_first_call json_loads url us' k w2).
Qed.

Lemma sleep_240_between_cycles_witness :
  run JSON.loads 13 main (boot scenario_net) = run JSON.loads 6 main scenario_cycle1.
Proof.
  refine (proj1 (sleep_240_between_cycles JSON.loads urls 5 (boot scenario_net)
                   scenario_swept _) 6).
  vm_compute. reflexivity.
Defined.

(* ===================================================================== *)
(** ** The loop has no way out *)
(* ===================================================================== *)

(** C5, as the code has it.  The loop never ends of itself.  (1)
    Whatever type of result the loop is given, no run of it returns,
    however long.  (2) After any number [N] of finished turns of
    [while], the process is at the head of the loop again, and what it
    does next is to request the first URL.  (3) Every state the process
    reaches, in the middle of the [for] loop or at the sleep, takes a
    step, unless the library call it is about to make raises: then the
    process dies of that exception.  (4) When no reply makes a turn on a
    URL of the list raise (no request fails, every 200 decodes, and
    [print] writes every line), every state the process reaches has a
    successor, and the process is still running after any number of
    steps. *)
Theorem poller_never_exits :
  forall (L : Libs) (us : list string) (w : World),
    (forall (T : Type) (n : nat),
        match run_in L n (ITree.forever (cycle_over us) : itree pingE T) w with
        | Done _ _ _ => False
        | Raised _ _ => True
        | Running _ => True
        end) /\
    (forall N wN,
        cycles_in L us N w wN ->
        exists k,
          (forall fuel, run_in L (k + fuel) (poller us) w
                        = run_in L fuel (poller us) wN) /\
          (forall fuel url us', us = url :: us' ->
             exists es,
               log (world_of (run_in L (k + S fuel) (poller us) w)) =
               log wN ++ (now wN, EvGet url) :: es)) /\
    (forall (T : Type) (c : config T),
        reachable_in L us w c ->
        (exists c', step_in L c c') \/
        (exists exn w', crashes_in L c exn w' /\
                        forall fuel, run_in L (S fuel) (fst c) (snd c) = Raised exn w')) /\
    (unfailing L us (net w) ->
     (forall (T : Type) (c : config T),
         reachable_in L us w c -> exists c', step_in L c c') /\
     (forall n, exists w', run_in L n (poller us) w = Running w')).
Proof.
  intros L us w. split; [| split; [| split]].
  - intros T n.
    pose proof (forever_in_unreturned L (T := T) (cycle_over us) n w) as U.
    destruct (run_in L n (ITree.forever (cycle_over us)) w); exact U.
  - intros N wN H.
    destruct (poller_in_after_cycles L us N w wN H) as (k & Hk).
    exists k. split; [exact Hk |].
    intros fuel url us' ->. rewrite Hk. apply poller_in_first_call.
  - intros T c R.
    destruct (reachable_in_step_or_crash L us w c R) as [S1 | (exn & w' & Cr)];
      [left; exact S1 | right].
    exists exn, w'. split; [exact Cr |]. intros fuel.
    apply (run_in_raised_more L 1 _ _ _ _ (crash_in_run L c exn w' Cr) fuel).
  - intros Ob. split.
    + intros T c R.
      destruct (reachable_in_step_or_crash L us w c R)
        as [S1 | (exn & w' & Cr)]; [exact S1 |].
      exfalso. destruct R as (n & St).
      pose proof (steps_in_run L n _ _ St 1) as E. cbn [fst snd] in E.
      rewrite (crash_in_run L c exn w' Cr) in E.
      destruct (forever_in_keeps_running L (T := T) us (n + 1) w Ob) as (w'' & R).
      congruence.
    + intros n. apply (forever_in_keeps_running L us n w Ob).
Qed.

Lemma scenario_unfailing : unfailing python urls scenario_net.
Proof.
  intros k url Hin. unfold scenario_net.
  destruct Hin as [<- | [<- | []]]; destruct (Nat.even k);
    vm_compute; eexists; reflexivity.
Qed.

Lemma scenario_two_cycles_in :
  cycles_in python urls 2 (boot scenario_net) scenario_cycle2.
Proof.
  apply (cycles_in_more python urls 1 6 (boot scenario_net) scenario_cycle1).
  { vm_compute. reflexivity. }
  apply (cycles_in_more python urls 0 6 scenario_cycle1 scenario_cycle2).
  { vm_compute. reflexivity. }
  apply cycles_in_none.
Qed.

Lemma poller_never_exits_witness :
  (exists k, forall fuel,
      run_in python (k + fuel) main (boot scenario_net)
      = run_in python fuel main scenario_cycle2) /\
  (exists w', run_in python 100 main (boot scenario_net) = Running w').
Proof.
  pose proof (poller_never_exits python urls (boot scenario_net))
    as (_ & H2 & _ & H4).
  split.
  - destruct (H2 2 scenario_cycle2 scenario_two_cycles_in) as (k & Hk & _).
    exists k. exact Hk.
  - apply (H4 scenario_unfailing).
Defined.

(** C5, as the claim has it, fails: with the network down, the state the
    process starts in is about to make a request that raises.  It has no
    successor, and the process dies there of the exception. *)
Lemma dead_network_state_has_no_successor :
  reachable_in python urls (boot dead_net) (main, boot dead_net) /\
  ~ (exists c', step_in python (main, boot dead_net) c') /\
  run_in python 1 main (boot dead_net)
  = Raised (TransportError "ConnectionError") dead_crashed.
Proof.
  split; [| split].
  - exists 0. apply steps_in_none.
  - intros (c' & St). apply step_in_run in St. vm_compute in St. exact St.
  - vm_compute. reflexivity.
Qed.

(* ===================================================================== *)
(** ** What a bad status and a bad body do to the loop *)
(* ===================================================================== *)

Lemma non200_obliging (json_loads : string -> option pyvalue) (n : nat -> Reply) :
  (forall k, exists d response,
      n k = Answer d response /\ status_code response <> 200%Z) ->
  obliging json_loads n.
Proof.
  intros H k. destruct (H k) as (d & response & E & N200).
  exists d, response. split; [exact E | intros E200; contradiction].
Qed.

(** C6.  A status other than 200 is dealt with inside the turn.  With
    the URLs before [url] done and the reply for [url] not a 200, the
    turn of [url] returns after its print, and (1) whatever follows it
    runs next; (2) in the loop, what runs next is the turns of the URLs
    after [url], the sleep and the loop again; (3) if there is a URL
    after [url], its request is the next call made; (4) a network that
    only sends statuses other than 200 never stops the process. *)
Theorem non200_does_not_stop_the_loop :
  forall (json_loads : string -> option pyvalue)
         (us1 : list string) (url : string) (us2 : list string)
         (n : nat) (w w1 : World) (d : N) (response : Response),
    completes_in json_loads n (for_each us1 ping) w w1 ->
    net w1 (sent w1) = Answer d response ->
    status_code response <> 200%Z ->
    let us := us1 ++ url :: us2 in
    let w2 :=
      mkWorld (net w1) (S (sent w1)) (now w1 + d)
        (log w1 ++
         [(now w1, EvGet url);
          ((now w1 + d)%N,
           EvPrint (PyStr (failure_message url (status_code response))))]) in
    (forall (R : Type) (rest : itree pingE R) (k : nat),
        run json_loads (2 + k) (ping url ;; rest) w1 = run json_loads k rest w2) /\
    (forall k,
        run json_loads (n + 2 + k) (poller us) w =
        run json_loads k (cycle_over us2 ;; Tau (poller us)) w2) /\
    (forall k next us2', us2 = next :: us2' ->
       exists es,
         log (world_of (run json_loads (n + 2 + S k) (poller us) w)) =
         log w2 ++ (now w2, EvGet next) :: es) /\
    ((forall k, exists d' response',
         net w k = Answer d' response' /\ status_code response' <> 200%Z) ->
     forall fuel, exists w', run json_loads fuel (poller us) w = Running w').
Proof.
  intros json_loads us1 url us2 n w w1 d response H Hnet H200 us w2.
  assert (G : forall (R : Type) (rest : itree pingE R) (k : nat),
             run json_loads (2 + k) (ping url ;; rest) w1 = run json_loads k rest w2).
  { intros R rest k. rewrite run_bind.
    rewrite (ping_failed json_loads k url w1 d response Hnet H200).
    rewrite (after_get_answer url w1 d response Hnet), record_mk, <- app_assoc.
    reflexivity. }
  assert (G2 : forall k,
             run json_loads (n + 2 + k) (poller us) w =
             run json_loads k (cycle_over us2 ;; Tau (poller us)) w2).
  { intros k. unfold us.
    replace (n + 2 + k) with (n + (2 + k)) by lia.
    rewrite (poller_mid_cycle json_loads us1 (url :: us2) n (2 + k) w w1 H).
    unfold cycle_over. cbn [for_each]. rewrite !run_bind_assoc.
    apply G. }
  split; [exact G | split; [exact G2 | split]].
  - intros k next us2' ->. rewrite G2. unfold cycle_over.
    rewrite run_bind_assoc. apply sweep_first_call.
  - intros Hall fuel.
    apply (poller_keeps_running json_loads us fuel w).
    apply non200_obliging, Hall.
Qed.

Lemma non200_does_not_stop_the_loop_witness :
  run JSON.loads 7 main (boot net_404) =
  run JSON.loads 5
      (cycle_over ["https://f0rest-rank-api.glitch.me/getRank/f0rest"%string] ;;
       Tau main)
      (mkWorld net_404 1 1
         [(0%N, EvGet "https://f0rest-rank-api.glitch.me/getRank/olofmeister");
          (1%N, EvPrint (PyStr "Failed to retrieve data from https://f0rest-rank-api.glitch.me/getRank/olofmeister. Status code: 404"))]) /\
  (forall fuel, exists w', run JSON.loads fuel main (boot net_404) = Running w').
Proof.
  assert (H0 : completes_in JSON.loads 0 (for_each [] ping) (boot net_404) (boot net_404))
    by reflexivity.
  assert (H1 : net (boot net_404) (sent (boot net_404))
               = Answer 1 (mkResponse 404 "Not Found")) by reflexivity.
  assert (H2 : status_code (mkResponse 404 "Not Found") <> 200%Z)
    by (cbn; discriminate).
  destruct (non200_does_not_stop_the_loop JSON.loads []
              "https://f0rest-rank-api.glitch.me/getRank/olofmeister"
              ["https://f0rest-rank-api.glitch.me/getRank/f0rest"%string]
              0 (boot net_404) (boot net_404) 1 (mkResponse 404 "Not Found")
              H0 H1 H2) as (_ & G2 & _ & G4).
  split.
  - exact (G2 5).
  - apply G4. intros k. exists 1%N, (mkResponse 404 "Not Found").
    split; [reflexivity | cbn; discriminate].
Defined.

(** C7.  A 200 whose body does not decode: the turn makes the request
    and calls the decoder, which raises; nothing is printed, and the
    exception is the outcome of the turn, of the turn followed by
    anything at all, and of the loop. *)
Theorem malformed_json_propagates :
  forall (json_loads : string -> option pyvalue) (url : string) (w : World)
         (d : N) (response : Response) (n : nat),
    net w (sent w) = Answer d response ->
    status_code response = 200%Z ->
    json_loads (text response) = None ->
    let w' :=
      mkWorld (net w) (S (sent w)) (now w + d)
        (log w ++ [(now w, EvGet url); ((now w + d)%N, EvJson (text response))]) in
    run json_loads (2 + n) (ping url) w = Raised JSONDecodeError w' /\
    (forall (R : Type) (rest : itree pingE R),
        run json_loads (2 + n) (ping url ;; rest) w = Raised JSONDecodeError w') /\
    (forall us, run json_loads (2 + n) (poller (url :: us)) w
                = Raised JSONDecodeError w') /\
    printed w' = printed w.
Proof.
  intros json_loads url w d response n Hnet H200 Hj w'.
  assert (G : run json_loads (2 + n) (ping url) w = Raised JSONDecodeError w').
  { rewrite (ping_malformed json_loads n url w d response Hnet H200 Hj).
    rewrite (after_get_answer url w d response Hnet), record_mk, <- app_assoc.
    reflexivity. }
  split; [exact G | split; [| split]].
  - intros R rest. rewrite run_bind, G. reflexivity.
  - intros us. unfold poller, cycle_over.
    rewrite run_forever, run_bind, for_each_cons, G. reflexivity.
  - unfold printed, events, w'. cbn [log]. rewrite map_app, printed_of_app.
    apply app_nil_r.
Qed.

Lemma malformed_json_propagates_witness :
  run JSON.loads 2 (ping "https://f0rest-rank-api.glitch.me/getRank/f0rest") html_swept
  = Raised JSONDecodeError html_crashed.
Proof.
  apply (malformed_json_propagates JSON.loads
           "https://f0rest-rank-api.glitch.me/getRank/f0rest" html_swept 2
           (mkResponse 200 "<html>") 0).
  - reflexivity.
  - reflexivity.
  - vm_compute. reflexivity.
Defined.

(* ===================================================================== *)
(** ** The output depends on the responses only *)
(* ===================================================================== *)

(** C8.  What the program prints depends on the responses it gets and on
    nothing else.  (1) In any run of the loop, of any length and from
    any state, the [i]-th line printed is the line of the [i]-th
    response the run got, taken for the URL at [i] modulo the length of
    the list: the decoded body for a 200, the failure line for that URL
    and that status otherwise.  The time a response took, the clock and
    what was logged before play no part.  Hence, for two runs against
    networks that send the same responses (the same status and body, or
    the same failure, request by request) but may take different times
    to do so, from states whose clocks and logs may differ: (2) whatever
    their lengths, one has printed what the other has and maybe more
    after it; (3) two runs that have each done [N] turns of the [while]
    loop have printed the same lines; (4) two runs that have each ended
    in an exception have printed the same lines and ended in the same
    exception. *)
Theorem same_responses_same_output :
  forall (L : Libs) (us : list string) (w1 w2 : World),
    same_responses (net w1) (net w2) ->
    sent w1 = sent w2 ->
    (forall n, exists lines,
        printed (world_of (run_in L n (poller us) w1)) = printed w1 ++ lines /\
        forall i line,
          nth_error lines i = Some line ->
          line_of L (List.nth (i mod List.length us) us EmptyString)
                  (net w1 (sent w1 + i)) = inl line) /\
    (forall n1 n2, exists lines1 lines2 more,
        printed (world_of (run_in L n1 (poller us) w1)) = printed w1 ++ lines1 /\
        printed (world_of (run_in L n2 (poller us) w2)) = printed w2 ++ lines2 /\
        (lines2 = lines1 ++ more \/ lines1 = lines2 ++ more)) /\
    (forall N w1' w2',
        cycles_in L us N w1 w1' ->
        cycles_in L us N w2 w2' ->
        exists lines,
          printed w1' = printed w1 ++ lines /\
          printed w2' = printed w2 ++ lines) /\
    (forall n1 n2 e1 e2 w1' w2',
        run_in L n1 (poller us) w1 = Raised e1 w1' ->
        run_in L n2 (poller us) w2 = Raised e2 w2' ->
        e1 = e2 /\
        exists lines,
          printed w1' = printed w1 ++ lines /\
          printed w2' = printed w2 ++ lines).
Proof.
  intros L us w1 w2 Hn Hs.
  assert (Sw : forall lines,
             lines_from (line_at L us (net w2) (sent w2)) lines ->
             lines_from (line_at L us (net w1) (sent w1)) lines).
  { intros lines H i line Hnth.
    rewrite Hs, (line_at_same L us (net w1) (net w2) (sent w2) i Hn).
    apply H, Hnth. }
  split; [| split; [| split]].
  - intros n. destruct (poller_in_outcome L us n w1) as (lines & Hp & Fr & _).
    exists lines. split; [exact Hp | exact Fr].
  - intros n1 n2.
    destruct (poller_in_outcome L us n1 w1) as (lines1 & Hp1 & Fr1 & _).
    destruct (poller_in_outcome L us n2 w2) as (lines2 & Hp2 & Fr2 & _).
    destruct (lines_from_comparable _ lines1 lines2 Fr1 (Sw _ Fr2)) as (more & Hc).
    exists lines1, lines2, more. auto.
  - intros N w1' w2' C1 C2.
    destruct (cycles_in_lines L us N w1 w1' C1) as (lines1 & Hp1 & Fr1 & Hl1 & _).
    destruct (cycles_in_lines L us N w2 w2' C2) as (lines2 & Hp2 & Fr2 & Hl2 & _).
    assert (lines1 = lines2).
    { apply (lines_from_same_length _ lines1 lines2 Fr1 (Sw _ Fr2)). congruence. }
    subst lines2. exists lines1. auto.
  - intros n1 n2 e1 e2 w1' w2' R1 R2.
    destruct (poller_in_outcome L us n1 w1) as (lines1 & Hp1 & Fr1 & Hr1).
    destruct (poller_in_outcome L us n2 w2) as (lines2 & Hp2 & Fr2 & Hr2).
    rewrite R1 in Hp1. rewrite R2 in Hp2. cbn [world_of] in Hp1, Hp2.
    destruct (Hr1 e1 w1' R1) as (E1 & _). destruct (Hr2 e2 w2' R2) as (E2 & _).
    rewrite <- Hs, <- (line_at_same L us (net w1) (net w2) (sent w1) _ Hn) in E2.
    destruct (lines_from_same_end _ lines1 lines2 e1 e2 Fr1 (Sw _ Fr2) E1 E2)
      as (<- & <-).
    split; [reflexivity |]. exists lines1. auto.
Qed.

Lemma scenario_same_responses :
  same_responses (net (boot scenario_net)) (net (mkWorld scenario_net_slow 0 1000 [])).
Proof.
  intros k. unfold boot, scenario_net, scenario_net_slow. cbn [net].
  destruct (Nat.even k); reflexivity.
Qed.

Lemma same_responses_same_output_witness :
  (exists lines1 lines2 more,
      printed (world_of (run_in python 13 main (boot scenario_net)))
      = printed (boot scenario_net) ++ lines1 /\
      printed (world_of (run_in python 9 main (mkWorld scenario_net_slow 0 1000 [])))
      = printed (mkWorld scenario_net_slow 0 1000 []) ++ lines2 /\
      (lines2 = lines1 ++ more \/ lines1 = lines2 ++ more)) /\
  (exists lines,
      printed scenario_cycle1 = printed (boot scenario_net) ++ lines /\
      printed scenario_slow_cycle1
      = printed (mkWorld scenario_net_slow 0 1000 []) ++ lines).
Proof.
  pose proof (same_responses_same_output python urls (boot scenario_net)
                (mkWorld scenario_net_slow 0 1000 [])
                scenario_same_responses eq_refl) as (_ & H2 & H3 & _).
  split.
  - exact (H2 13 9).
  - apply (H3 1).
    + apply (cycles_in_more python urls 0 6 (boot scenario_net) scenario_cycle1).
      * vm_compute. reflexivity.
      * apply cycles_in_none.
    + apply (cycles_in_more python urls 0 6 (mkWorld scenario_net_slow 0 1000 [])
               scenario_slow_cycle1).
      * vm_compute. reflexivity.
      * apply cycles_in_none.
Defined.

(* ===================================================================== *)
(** ** An exception in the middle of a turn of the loop *)
(* ===================================================================== *)



(* ===================================================================== *)
(** ** The start of the process *)
(* ===================================================================== *)

(** C10.  The loop starts with a request, not with a sleep.  Run from
    any world for at least one step, the first thing the loop over a
    list that is not empty logs is the request for the first URL,
    stamped with the time it was entered; for the program started
    afresh that is the request for the first of the two URLs at time 0.
    And in any run of the loop, either no sleep has been logged yet, or
    the calls logged before the first sleep are those of a full pass
    over the list. *)
Theorem no_initial_delay :
  forall (json_loads : string -> option pyvalue) (n : nat),
    (forall url us w,
        exists es,
          log (world_of (run json_loads (S n) (poller (url :: us)) w)) =
          log w ++ (now w, EvGet url) :: es) /\
    (forall network,
        exists es,
          log (world_of (run json_loads (S n) main (boot network))) =
          (0%N, EvGet "https://f0rest-rank-api.glitch.me/getRank/olofmeister") :: es) /\
    (forall us w,
        exists evs,
          events (world_of (run json_loads n (poller us) w)) = events w ++ evs /\
          (slept_of evs = [] \/
           exists turns rest,
             Forall2 turn us turns /\
             evs = List.concat turns ++ EvSleep 240 :: rest)).
Proof.
  intros json_loads n. split; [| split].
  - intros url us w. apply poller_first_call.
  - intros network.
    apply (poller_first_call json_loads
             "https://f0rest-rank-api.glitch.me/getRank/olofmeister"
             ["https://f0rest-rank-api.glitch.me/getRank/f0rest"%string]
             n (boot network)).
  - intros us w. apply poller_sleeps_after_pass.
Qed.

(* ===================================================================== *)
(** ** The scenario of the spec, and the order of requests in a run *)
(* ===================================================================== *)

(** The first URL answers 200 with [{"x":1}] and the second 500: a turn
    of the loop prints the decoded value, then the failure line for the
    second URL, and sleeps; the next turn does the same again. *)
Lemma scenario_repeats_identically :
  cycles_done JSON.loads urls 1 (boot scenario_net) scenario_cycle1 /\
  cycles_done JSON.loads urls 1 scenario_cycle1 scenario_cycle2 /\
  printed scenario_cycle1 =
  [PyDict [("x"%string, PyInt 1)];
   PyStr "Failed to retrieve data from https://f0rest-rank-api.glitch.me/getRank/f0rest. Status code: 500"] /\
  printed scenario_cycle2 = printed scenario_cycle1 ++ printed scenario_cycle1 /\
  slept scenario_cycle1 = [240%N] /\
  slept scenario_cycle2 = [240%N; 240%N].
Proof.
  split; [| split].
  - apply (cycles_more JSON.loads urls 0 6 (boot scenario_net) scenario_cycle1).
    + vm_compute. reflexivity.
    + apply cycles_none.
  - apply (cycles_more JSON.loads urls 0 6 scenario_cycle1 scenario_cycle2).
    + vm_compute. reflexivity.
    + apply cycles_none.
  - repeat split; vm_compute; reflexivity.
Qed.

(** X2.  Requests are made one at a time and go round the list: in any
    run of the loop, the URLs requested so far are the list some number
    of times over, then a beginning of the list. *)
Theorem requests_go_round_the_list :
  forall (json_loads : string -> option pyvalue) (us : list string)
         (n : nat) (w : World),
    exists evs c post,
      events (world_of (run json_loads n (poller us) w)) = events w ++ evs /\
      List.concat (List.repeat us (S c)) =
      requested_of evs ++ post.
Proof.
  intros json_loads us n. induction n as [n IH] using lt_wf_ind. intros w.
  unfold poller. rewrite run_forever.
  destruct (cycle_requests json_loads us n w) as (evs & E & Rq).
  destruct (run json_loads n (cycle_over us) w) as [[] w1 spare | exn w1 | w1] eqn:Ec.
  - destruct spare as [| spare].
    + exists evs, 0, []. split; [exact E |].
      cbn. rewrite Rq, !app_nil_r. reflexivity.
    + destruct (run_done_exact json_loads _ _ _ _ _ _ Ec) as (m & -> & _).
      destruct (IH spare ltac:(lia) w1) as (evs' & c & post & E' & Rq').
      exists (evs ++ evs'), (S c), post. split.
      * fold (poller us). rewrite E'. cbn [world_of] in E. rewrite E, <- app_assoc.
        reflexivity.
      * rewrite requested_of_app, Rq, <- app_assoc, <- Rq'. reflexivity.
  - destruct Rq as (post & Rq). exists evs, 0, post. split; [exact E |].
    cbn. rewrite app_nil_r. exact Rq.
  - destruct Rq as (post & Rq). exists evs, 0, post. split; [exact E |].
    cbn. rewrite app_nil_r. exact Rq.
Qed.

(* ===================================================================== *)
(** ** What a pass prints, how long a turn of the loop takes, and what a
       run can have done at any point *)
(* ===================================================================== *)

(** X1.  If a turn of the [while] loop runs to its end and the network
    then sends, request for request, the responses it sent during that
    turn, the next turn of the loop runs to its end too and prints the
    same lines again. *)
Theorem unchanged_responses_repeat_output :
  forall (json_loads : string -> option pyvalue) (us : list string)
         (n1 : nat) (w w1 : World),
    completes_in json_loads n1 (cycle_over us) w w1 ->
    (forall i, i < List.length us ->
       same_reply (net w (sent w + i)) (net w (sent w + List.length us + i))) ->
    exists lines n2 w2,
      completes_in json_loads n2 (cycle_over us) w1 w2 /\
      printed w1 = printed w ++ lines /\
      printed w2 = printed w1 ++ lines.
Proof.
  intros json_loads us n1 w w1 H1 Hsame.
  destruct (cycle_done json_loads us n1 w w1 0 H1) as (lines & Hl & Hp & Hs & _ & Hn).
  assert (Hl1 : pass_lines json_loads us (net w1) (sent w1) = Some lines).
  { rewrite Hn, Hs, <- Hl. symmetry. apply pass_lines_same, Hsame. }
  destruct (cycle_runs json_loads us w1 lines Hl1) as (n2 & w2 & _ & H2).
  destruct (cycle_done json_loads us n2 w1 w2 0 H2) as (lines2 & Hl2 & Hp2 & _).
  exists lines, n2, w2. split; [exact H2 | split; [exact Hp |]].
  rewrite Hl1 in Hl2. injection Hl2 as <-. exact Hp2.
Qed.

Lemma unchanged_responses_repeat_output_witness :
  exists lines n2 w2,
    completes_in JSON.loads n2 cycle scenario_cycle1 w2 /\
    printed scenario_cycle1 = printed (boot scenario_net) ++ lines /\
    printed w2 = printed scenario_cycle1 ++ lines.
Proof.
  apply (unchanged_responses_repeat_output JSON.loads urls 6 (boot scenario_net)
           scenario_cycle1).
  - vm_compute. reflexivity.
  - intros i _. unfold boot, scenario_net.
    cbn [net sent urls List.length Nat.add Nat.even].
    destruct (Nat.even i); cbn [same_reply]; reflexivity.
Defined.

(** X3.  What a pass over the list comes to is read off the replies to
    its requests: [pass_result] goes through the list with the replies,
    collects the line each reply comes to (the decoded body for a 200,
    the failure line otherwise) and stops at the first reply that comes
    to an exception (of the request, of the decoder, or of [print]).
    (1) The pass ends within three calls for each URL, having printed
    those lines, in that order: it returns if there was no exception,
    and raises that exception if there was one.  (2) So a pass that
    returns has printed one line for each URL and counted one request
    for each, and (3) a pass that raises has printed the lines before
    the failing turn and no other. *)
Theorem pass_prints_the_lines_of_its_replies :
  forall (L : Libs) (us : list string) (w : World),
    (exists n w',
        n <= 3 * List.length us /\
        printed w' = printed w ++ fst (pass_result L us (net w) (sent w)) /\
        forall k,
          run_in L (n + k) (for_each us ping) w =
          match snd (pass_result L us (net w) (sent w)) with
          | None => Done tt w' k
          | Some exn => Raised exn w'
          end) /\
    (forall n w1 spare,
        run_in L n (for_each us ping) w = Done tt w1 spare ->
        snd (pass_result L us (net w) (sent w)) = None /\
        printed w1 = printed w ++ fst (pass_result L us (net w) (sent w)) /\
        List.length (fst (pass_result L us (net w) (sent w))) = List.length us /\
        sent w1 = sent w + List.length us) /\
    (forall n exn w1,
        run_in L n (for_each us ping) w = Raised exn w1 ->
        snd (pass_result L us (net w) (sent w)) = Some exn /\
        printed w1 = printed w ++ fst (pass_result L us (net w) (sent w)) /\
        List.length (fst (pass_result L us (net w) (sent w))) < List.length us).
Proof.
  intros L us w.
  destruct (pass_in_ends L us w) as (n0 & w0 & Hle & Hp & Hrun).
  split; [exists n0, w0; auto | split].
  - intros n w1 spare H.
    pose proof (run_in_done_more L n _ w w1 tt spare H n0) as H1.
    rewrite Nat.add_comm, Hrun in H1.
    destruct (pass_in_outcome L us n w) as (lines & Hp1 & _ & _ & Ho).
    rewrite H in Hp1, Ho. cbn [world_of] in Hp1. destruct Ho as (Hlen & Hs).
    destruct (snd (pass_result L us (net w) (sent w))) as [exn |];
      [discriminate |].
    injection H1 as <- _.
    rewrite Hp in Hp1. apply app_inv_head in Hp1. rewrite Hp1 in Hp |- *.
    repeat split; assumption.
  - intros n exn w1 H.
    pose proof (run_in_raised_more L n _ w w1 exn H n0) as H1.
    rewrite Nat.add_comm, Hrun in H1.
    destruct (pass_in_outcome L us n w) as (lines & Hp1 & _ & _ & Ho).
    rewrite H in Hp1, Ho. cbn [world_of] in Hp1.
    destruct Ho as ((url & Hu & _) & _).
    destruct (snd (pass_result L us (net w) (sent w))) as [exn' |];
      [| discriminate].
    injection H1 as <- <-.
    rewrite Hp in Hp1. apply app_inv_head in Hp1. rewrite Hp1 in Hp |- *.
    repeat split; try assumption.
    apply nth_error_Some. congruence.
Qed.

Lemma pass_prints_the_lines_of_its_replies_witness :
  snd (pass_result python urls (net (boot scenario_net)) (sent (boot scenario_net)))
  = None /\
  printed scenario_swept =
  printed (boot scenario_net) ++
  fst (pass_result python urls (net (boot scenario_net)) (sent (boot scenario_net))) /\
  List.length
    (fst (pass_result python urls (net (boot scenario_net)) (sent (boot scenario_net))))
  = List.length urls /\
  sent scenario_swept = sent (boot scenario_net) + List.length urls.
Proof.
  apply (proj1 (proj2 (pass_prints_the_lines_of_its_replies python urls
                         (boot scenario_net)))
           5 scenario_swept 0).
  vm_compute. reflexivity.
Defined.

(** X4.  A turn of the [while] loop that runs to its end takes the time
    of its requests and 240 more: the loop comes round every 240 plus
    whatever the requests took, never sooner than after 240, and the
    request counter has moved by the number of URLs. *)
Theorem cycle_takes_240_plus_latencies :
  forall (json_loads : string -> option pyvalue) (us : list string)
         (n : nat) (w w' : World) (spare : nat),
    run json_loads n (cycle_over us) w = Done tt w' spare ->
    now w' = (now w + pass_time (List.length us) (net w) (sent w) + 240)%N /\
    (now w + 240 <= now w')%N /\
    sent w' = sent w + List.length us.
Proof.
  intros json_loads us n w w' spare H.
  destruct (cycle_done json_loads us n w w' spare H) as (lines & _ & _ & Hs & Ht & _).
  repeat split; [exact Ht | lia | exact Hs].
Qed.

Lemma cycle_takes_240_plus_latencies_witness :
  now scenario_cycle1 =
  (now (boot scenario_net)
   + pass_time (List.length urls) (net (boot scenario_net)) (sent (boot scenario_net))
   + 240)%N /\
  (now (boot scenario_net) + 240 <= now scenario_cycle1)%N /\
  sent scenario_cycle1 = sent (boot scenario_net) + List.length urls.
Proof.
  apply (cycle_takes_240_plus_latencies JSON.loads urls 6 (boot scenario_net)
           scenario_cycle1 0).
  vm_compute. reflexivity.
Defined.

(** X5.  One request at a time: at any point of any run of the loop, the
    requests made since the run began are as many as the lines printed,
    or one more (the request whose line is still to come, or will never
    come).  No request is made while another has had no line. *)
Theorem one_request_at_a_time :
  forall (json_loads : string -> option pyvalue) (us : list string)
         (n : nat) (w : World),
    exists evs,
      events (world_of (run json_loads n (poller us) w)) = events w ++ evs /\
      List.length (printed_of evs) <= List.length (requested_of evs) /\
      List.length (requested_of evs) <= S (List.length (printed_of evs)).
Proof.
  intros json_loads us n w.
  destruct (poller_calls json_loads us n w) as (evs & E & (cycles & tail & Fc & U & ->)).
  exists (List.concat (List.map cycle_calls cycles) ++ tail). split; [exact E |].
  rewrite printed_of_app, requested_of_app, !length_app, (cycles_balanced us cycles Fc).
  destruct U as [(us1 & url & us2 & turns & part & _ & F & P & ->) | (turns & F & ->)].
  - rewrite printed_of_app, requested_of_app, !length_app, (turns_balanced us1 turns F).
    destruct P; cbn; lia.
  - rewrite (turns_balanced us turns F). lia.
Qed.

(** X6.  One sleep for each pass, and always of 240: at any point of any
    run of the loop, if [c] sleeps have been logged since the run began
    they were all of 240, and the requests made are [c] times the whole
    list, in order, followed by a beginning of the list.  So no more
    requests are ever made than one pass more than there were sleeps. *)
Theorem one_sleep_per_pass :
  forall (json_loads : string -> option pyvalue) (us : list string)
         (n : nat) (w : World),
    exists evs c pre post,
      events (world_of (run json_loads n (poller us) w)) = events w ++ evs /\
      slept_of evs = List.repeat 240%N c /\
      requested_of evs = List.concat (List.repeat us c) ++ pre /\
      us = pre ++ post /\
      List.length (requested_of evs) <= (c + 1) * List.length us.
Proof.
  intros json_loads us n w.
  destruct (poller_calls json_loads us n w) as (evs & E & (cycles & tail & Fc & U & ->)).
  assert (G : exists pre post,
             requested_of tail = pre /\ us = pre ++ post /\ slept_of tail = []).
  { destruct U as [(us1 & url & us2 & turns & part & -> & F & P & ->) | (turns & F & ->)].
    - rewrite requested_of_app, slept_of_app,
        (turns_requested us1 turns F), (turns_slept us1 turns F).
      destruct P; cbn [requested_of slept_of app].
      + exists us1, (url :: us2). rewrite app_nil_r. auto.
      + exists (us1 ++ [url]), us2. rewrite <- app_assoc. auto.
      + exists (us1 ++ [url]), us2. rewrite <- app_assoc. auto.
    - exists us, []. rewrite (turns_requested us turns F), (turns_slept us turns F),
        app_nil_r. auto. }
  destruct G as (pre & post & Hr & Hu & Hs).
  exists (List.concat (List.map cycle_calls cycles) ++ tail), (List.length cycles), pre, post.
  rewrite slept_of_app, requested_of_app, (cycles_slept us cycles Fc),
    (cycles_requested us cycles Fc), Hr, Hs, app_nil_r.
  repeat split; try assumption.
  rewrite length_app.
  assert (L : List.length (List.concat (List.repeat us (List.length cycles)))
              = List.length cycles * List.length us).
  { generalize (List.length cycles). intros c.
    induction c as [| c IH]; [reflexivity |].
    cbn [List.repeat List.concat]. rewrite length_app, IH. cbn. lia. }
  rewrite L.
  assert (Lp : List.length pre <= List.length us).
  { rewrite Hu, length_app. lia. }
  nia.
Qed.

(** X7.  A run of the loop that ends in an exception ends in the turn of
    the last request it made: every request before that one has had its
    line printed, the line its reply comes to, and the exception is the
    one the reply to the last request comes to, raised by the request
    itself, by the decoder on the body of a 200, or by [print] on the
    line.  No line is lost before the failing turn, and none is printed
    in it. *)
Theorem crash_is_due_to_last_reply :
  forall (L : Libs) (us : list string) (n : nat) (w w' : World) (exn : pyexn),
    run_in L n (poller us) w = Raised exn w' ->
    exists lines,
      printed w' = printed w ++ lines /\
      sent w' = sent w + S (List.length lines) /\
      (forall i line,
          nth_error lines i = Some line ->
          line_of L (List.nth (i mod List.length us) us EmptyString)
                  (net w (sent w + i)) = inl line) /\
      line_of L (List.nth (List.length lines mod List.length us) us EmptyString)
              (net w (sent w + List.length lines)) = inr exn.
Proof.
  intros L us n w w' exn H.
  destruct (poller_in_outcome L us n w) as (lines & Hp & Fr & Hr).
  rewrite H in Hp. cbn [world_of] in Hp.
  destruct (Hr exn w' H) as (He & Hs).
  exists lines. split; [exact Hp | split; [exact Hs | split; [exact Fr | exact He]]].
Qed.

Lemma crash_is_due_to_last_reply_witness :
  exists lines,
    printed surrogate_crashed = printed (boot net_surrogate) ++ lines /\
    sent surrogate_crashed = sent (boot net_surrogate) + S (List.length lines) /\
    (forall i line,
        nth_error lines i = Some line ->
        line_of python (List.nth (i mod List.length urls) urls EmptyString)
                (net (boot net_surrogate) (sent (boot net_surrogate) + i)) = inl line) /\
    line_of python (List.nth (List.length lines mod List.length urls) urls EmptyString)
            (net (boot net_surrogate) (sent (boot net_surrogate) + List.length lines))
    = inr (OtherError "UnicodeEncodeError").
Proof.
  apply (crash_is_due_to_last_reply python urls 20 (boot net_surrogate)
           surrogate_crashed (OtherError "UnicodeEncodeError")).
  vm_compute. reflexivity.
Defined.

